(** * excel_to_brevo_json: catalogue sheet to brand-grouped JSON

    A shallow embedding of [src/excel_to_brevo_json.py] and the properties
    its specification states about it.

    The script is a pandas pipeline.  The embedding follows it statement by
    statement; the pandas and json calls are modelled by what they do on the
    values the script hands them (pandas 2.x, CPython's [json] module):

    - a Python [str] is a Rocq [string], the bytes of its UTF-8 form; [strip]
      and [lower] act on the ASCII range, every other byte is left alone;
    - a finite float is an exact rational ([Q]); how Python prints a float is
      the section variable [float_repr];
    - the frame is the value [pd.read_excel] returned: header names, and rows
      carrying their index label; the dtype of a column is read off its
      cells;
    - [astype(str)] writes the missing marker as the text [nan];
    - [to_dict] boxes [pd.NA] to [None] and leaves the float [nan] a float;
    - a raised exception ends the run; what is left of the run is the
      exception and the content of the output file, if it was opened. *)

From Stdlib Require Import List String Ascii ZArith QArith Qabs Qround Bool Arith Lia.
From Stdlib Require Import Permutation Sorted DecimalString.
Import ListNotations.

Close Scope Q_scope.
Open Scope nat_scope.
Open Scope bool_scope.
Open Scope string_scope.

(** ** Python strings *)

Module PyStr.

Definition code (c : ascii) : nat := nat_of_ascii c.

(** [str.isspace] on the ASCII range: TAB..CR, FS..US and the blank. *)
Definition isspace (c : ascii) : bool :=
  (((9 <=? code c) && (code c <=? 13)) || ((28 <=? code c) && (code c <=? 32)))%nat.

Definition isupper (c : ascii) : bool := ((65 <=? code c) && (code c <=? 90))%nat.

Definition lower_char (c : ascii) : ascii :=
  if isupper c then ascii_of_nat (code c + 32) else c.

Fixpoint lower (s : string) : string :=
  match s with
  | EmptyString => EmptyString
  | String c s' => String (lower_char c) (lower s')
  end.

Fixpoint lstrip (s : string) : string :=
  match s with
  | EmptyString => EmptyString
  | String c s' => if isspace c then lstrip s' else s
  end.

(** [rstrip] keeps a character when it is not a blank or when something
    survives to its right. *)
Fixpoint rstrip (s : string) : string :=
  match s with
  | EmptyString => EmptyString
  | String c s' =>
      match rstrip s' with
      | EmptyString => if isspace c then EmptyString else String c EmptyString
      | t => String c t
      end
  end.

Definition strip (s : string) : string := rstrip (lstrip s).

Fixpoint rev_string (s acc : string) : string :=
  match s with
  | EmptyString => acc
  | String c s' => rev_string s' (String c acc)
  end.

(** [s.endswith(suffix)] *)
Definition endswith (s suffix : string) : bool :=
  prefix (rev_string suffix EmptyString) (rev_string s EmptyString).

(** [s.endswith((a, b, ...))] with a tuple of suffixes *)
Definition endswith_any (s : string) (suffixes : list string) : bool :=
  existsb (endswith s) suffixes.

(** [str(n)] for an [int] *)
Definition of_Z (z : Z) : string := NilZero.string_of_int (Z.to_int z).

(** truth value of a [str]: the empty string is false *)
Definition truthy (s : string) : bool :=
  match s with EmptyString => false | _ => true end.

End PyStr.

(** ** Column resolution: [find_col] (lines 19-32) *)

(** [name in df.columns] *)
Definition in_columns (name : string) (cols : list string) : bool :=
  existsb (String.eqb name) cols.

(** [str(c).strip().lower() == name.strip().lower()] *)
Definition loose_eq (c name : string) : bool :=
  String.eqb (PyStr.lower (PyStr.strip c)) (PyStr.lower (PyStr.strip name)).

(** The inner [for c in df.columns] loop: the first header that matches
    [name] up to case and surrounding blanks. *)
Definition first_loose (cols : list string) (name : string) : option string :=
  find (fun c => loose_eq c name) cols.

(** The [for name in fallbacks] loop. *)
Fixpoint find_fallbacks (cols : list string) (fallbacks : list string)
  : option string :=
  match fallbacks with
  | [] => None
  | name :: rest =>
      if in_columns name cols then Some name
      else match first_loose cols name with
           | Some c => Some c
           | None => find_fallbacks cols rest
           end
  end.

Definition find_col (cols : list string) (target_name : string)
  (fallbacks : list string) : option string :=
  if in_columns target_name cols then Some target_name
  else match first_loose cols target_name with
       | Some c => Some c
       | None => find_fallbacks cols fallbacks
       end.

(** *** The search order as the specification words it *)

Module ResolveSpec.

(** One step of the search: an exact match, or a match up to case and
    surrounding blanks, on one name. *)
Inductive step := Exact (name : string) | Loose (name : string).

Definition run (cols : list string) (s : step) : option string :=
  match s with
  | Exact name => if in_columns name cols then Some name else None
  | Loose name => first_loose cols name
  end.

(** exact then loose on the canonical name, then the same on each fallback
    in the order listed *)
Definition search_order (canonical : string) (fallbacks : list string)
  : list step :=
  flat_map (fun name => [Exact name; Loose name]) (canonical :: fallbacks).

Fixpoint first_hit (cols : list string) (steps : list step) : option string :=
  match steps with
  | [] => None
  | s :: rest =>
      match run cols s with
      | Some c => Some c
      | None => first_hit cols rest
      end
  end.

Definition resolve (cols : list string) (canonical : string)
  (fallbacks : list string) : option string :=
  first_hit cols (search_order canonical fallbacks).

End ResolveSpec.

(** ** Exceptions and results *)

Inductive exn :=
| ValueError (msg : string)
| KeyError (key : string)
| TypeError (msg : string)
| AttributeError (msg : string).

Inductive result (A : Type) :=
| Ok (a : A)
| Raise (e : exn).

Arguments Ok {A} a.
Arguments Raise {A} e.

Definition bind {A B : Type} (m : result A) (k : A -> result B) : result B :=
  match m with
  | Ok a => k a
  | Raise e => Raise e
  end.

Notation "x <- m ;; k" := (bind m (fun x => k))
  (at level 61, m at next level, right associativity).

Fixpoint mapM {A B : Type} (f : A -> result B) (l : list A) : result (list B) :=
  match l with
  | [] => Ok []
  | a :: l' => b <- f a ;; bs <- mapM f l' ;; Ok (b :: bs)
  end.

(** ** Cell values *)

(** What a frame cell can hold on this script's path: text, an integer, a
    finite float, the float [nan] that [read_excel] puts in an empty cell,
    [pd.NA] of the nullable [Int64] dtype, and [None] (from [build_image]). *)
Inductive cell :=
| Str (s : string)
| Int (n : Z)
| Float (q : Q)
| NaN
| NA
| PyNone.

(** [pd.isna] *)
Definition isna (c : cell) : bool :=
  match c with
  | NaN | NA | PyNone => true
  | _ => false
  end.

(** ** Numbers: [pd.to_numeric], [round], [abs], [astype("Int64")] *)

Module Numeric.

Inductive number :=
| Finite (q : Q)
| Infinite
| NotANumber.

Definition isdigit (c : ascii) : bool :=
  ((48 <=? PyStr.code c) && (PyStr.code c <=? 57))%nat.

(** the blanks the number parser skips: TAB..CR and the blank *)
Definition isblank (c : ascii) : bool :=
  ((PyStr.code c =? 32) || ((9 <=? PyStr.code c) && (PyStr.code c <=? 13)))%nat.

Fixpoint skip_blanks (s : string) : string :=
  match s with
  | EmptyString => EmptyString
  | String c s' => if isblank c then skip_blanks s' else s
  end.

(** leading decimal digits, and what follows them *)
Fixpoint digits (s : string) : list Z * string :=
  match s with
  | EmptyString => ([], EmptyString)
  | String c s' =>
      if isdigit c
      then let '(ds, rest) := digits s' in
           (Z.of_nat (PyStr.code c - 48) :: ds, rest)
      else ([], s)
  end.

Definition digits_value (ds : list Z) : Z :=
  fold_left (fun acc d => 10 * acc + d)%Z ds 0%Z.

(** an optional sign: [true] for a minus *)
Definition sign (s : string) : bool * string :=
  match s with
  | String c s' =>
      if Ascii.eqb c "-" then (true, s')
      else if Ascii.eqb c "+" then (false, s')
      else (false, s)
  | EmptyString => (false, s)
  end.

(** an exponent [e<sign><digits>]; an [e] with no digit after it is not
    consumed *)
Definition exponent (s : string) : Z * string :=
  match s with
  | String c s' =>
      if Ascii.eqb c "e" || Ascii.eqb c "E"
      then let '(neg, s1) := sign s' in
           let '(ds, s2) := digits s1 in
           match ds with
           | [] => (0%Z, s)
           | _ => ((if neg then - digits_value ds else digits_value ds)%Z, s2)
           end
      else (0%Z, s)
  | EmptyString => (0%Z, s)
  end.

(** a decimal literal: blanks, sign, digits with an optional fraction, an
    optional exponent, blanks; the whole string has to be consumed *)
Definition parse_decimal (s : string) : option Q :=
  let '(neg, s1) := sign (skip_blanks s) in
  let '(ip, s2) := digits s1 in
  let '(fp, s3) :=
    match s2 with
    | String c s' => if Ascii.eqb c "." then digits s' else ([], s2)
    | EmptyString => ([], s2)
    end in
  match (ip ++ fp)%list with
  | [] => None
  | ds =>
      let '(e, s4) := exponent s3 in
      match skip_blanks s4 with
      | EmptyString =>
          let m := digits_value ds in
          Some (Qred (inject_Z (if neg then - m else m)
                      * Qpower (inject_Z 10) (e - Z.of_nat (List.length fp))))
      | _ => None
      end
  end.

Definition is_infinity_literal (s : string) : bool :=
  existsb (String.eqb (PyStr.lower s))
    ["inf"; "+inf"; "-inf"; "infinity"; "+infinity"; "-infinity"].

(** what [to_numeric(..., errors="coerce")] makes of a string *)
Definition parse (s : string) : number :=
  match parse_decimal s with
  | Some q => Finite q
  | None => if is_infinity_literal s then Infinite else NotANumber
  end.

(** [pd.to_numeric(column, errors="coerce")], cell by cell *)
Definition to_numeric (c : cell) : number :=
  match c with
  | Str s => parse s
  | Int n => Finite (inject_Z n)
  | Float q => Finite q
  | NaN | NA | PyNone => NotANumber
  end.

(** nearest integer, a tie going to the even neighbour (numpy's [rint]) *)
Definition round_half_even (q : Q) : Z :=
  let n := Qnum q in
  let d := Zpos (Qden q) in
  let f := (n / d)%Z in
  match (2 * (n mod d) ?= d)%Z with
  | Lt => f
  | Gt => (f + 1)%Z
  | Eq => if Z.even f then f else (f + 1)%Z
  end.

(** [.round(0)] *)
Definition round0 (x : number) : number :=
  match x with
  | Finite q => Finite (inject_Z (round_half_even q))
  | other => other
  end.

(** [.abs()] *)
Definition abs (x : number) : number :=
  match x with
  | Finite q => Finite (Qabs q)
  | other => other
  end.

Definition int64_bound : Z := (2 ^ 63)%Z.

(** [.astype("Int64")]: [nan] becomes [pd.NA]; a value that is not an
    integer of the 64-bit range cannot be cast *)
Definition astype_Int64 (x : number) : result cell :=
  match x with
  | NotANumber => Ok NA
  | Infinite => Raise (TypeError "cannot safely cast non-equivalent float64 to int64")
  | Finite q =>
      let n := Qfloor q in
      if Qeq_bool q (inject_Z n) && (Z.abs n <? int64_bound)%Z
      then Ok (Int n)
      else Raise (TypeError "cannot safely cast non-equivalent float64 to int64")
  end.

End Numeric.

(** Lines 53-59 on one cell of the Discount column.  The [where(..., None)] of
    line 59 stores [None] into an [Int64] array, which keeps it as [pd.NA]. *)
Definition where_notna_None (c : cell) : cell :=
  if isna c then NA else c.

Definition normalize_discount (c : cell) : result cell :=
  v <- Numeric.astype_Int64 (Numeric.abs (Numeric.round0 (Numeric.to_numeric c))) ;;
  Ok (where_notna_None v).

(** ** The frame *)

(** A row: its index label and its cells, in header order. *)
Definition row : Type := nat * list cell.

Record DataFrame := {
  columns : list string;
  data : list row
}.

(** number of header entries carrying [label] *)
Definition occurrences (label : string) (cols : list string) : nat :=
  List.length (filter (String.eqb label) cols).

(** the cell of a row under [label] (under the first such header) *)
Fixpoint lookup_label (cols : list string) (cells : list cell) (label : string)
  : option cell :=
  match cols, cells with
  | c :: cols', x :: cells' =>
      if String.eqb c label then Some x else lookup_label cols' cells' label
  | _, _ => None
  end.

Definition cell_of (cols : list string) (label : string) (r : row) : cell :=
  match lookup_label cols (snd r) label with
  | Some x => x
  | None => NaN
  end.

(** [df[label]] as a list of values *)
Definition column (df : DataFrame) (label : string) : list cell :=
  map (cell_of (columns df) label) (data df).

(** [df[label] = f(df[label])] on one row *)
Fixpoint map_label (cols : list string) (label : string) (f : cell -> cell)
  (cells : list cell) : list cell :=
  match cols, cells with
  | c :: cols', x :: cells' =>
      (if String.eqb c label then f x else x) :: map_label cols' label f cells'
  | _, _ => cells
  end.

(** the same with a step that can raise *)
Fixpoint mapM_label (cols : list string) (label : string)
  (f : cell -> result cell) (cells : list cell) : result (list cell) :=
  match cols, cells with
  | c :: cols', x :: cells' =>
      y <- (if String.eqb c label then f x else Ok x) ;;
      ys <- mapM_label cols' label f cells' ;;
      Ok (y :: ys)
  | _, _ => Ok cells
  end.

(** The dtype pandas gives a column, as far as the script looks at it: a
    column is [object] when it holds text (or [None]); a frame without rows
    has [object] columns only. *)
Definition is_object_cell (c : cell) : bool :=
  match c with
  | Str _ | PyNone => true
  | _ => false
  end.

Definition dtype_is_object (vals : list cell) : bool :=
  match vals with
  | [] => true
  | _ => existsb is_object_cell vals
  end.

(** ** Sorting *)

Section StableSort.

Context {A : Type} (leb : A -> A -> bool).

Fixpoint insert_sorted (x : A) (l : list A) : list A :=
  match l with
  | [] => [x]
  | y :: l' => if leb x y then x :: l else y :: insert_sorted x l'
  end.

(** a stable sort: among equal keys the earlier element stays first *)
Definition stable_sort (l : list A) : list A :=
  fold_right insert_sorted [] l.

End StableSort.

(** The value a row is sorted by (line 83): lower-cased text for an [object]
    column, where [.str.lower()] turns whatever is not text into [nan]; the
    number itself otherwise. *)
Inductive sort_value :=
| KNum (q : Q)
| KText (s : string).

Definition sort_value_leb (a b : sort_value) : bool :=
  match a, b with
  | KNum p, KNum q => Qle_bool p q
  | KText s, KText t => String.leb s t
  | KNum _, KText _ => true
  | KText _, KNum _ => false
  end.

Definition sort_key_of (is_object : bool) (c : cell) : option sort_value :=
  if is_object
  then match c with
       | Str s => Some (KText (PyStr.lower s))
       | _ => None
       end
  else match c with
       | Int n => Some (KNum (inject_Z n))
       | Float q => Some (KNum q)
       | _ => None
       end.

(** the rows that have a sort value, paired with it *)
Definition keyed_rows (key : row -> option sort_value) (rs : list row)
  : list (sort_value * row) :=
  flat_map (fun r => match key r with
                     | Some k => [(k, r)]
                     | None => []
                     end) rs.

Definition unkeyed_rows (key : row -> option sort_value) (rs : list row)
  : list row :=
  filter (fun r => match key r with
                   | Some _ => false
                   | None => true
                   end) rs.

(** [sort_values(by=..., key=..., na_position="last")]: the rows with a value
    in ascending order, then the rows without one in the order they had.
    pandas fixes no order among rows of equal sort value; the model keeps
    them in the order they had, and no property below depends on it. *)
Definition sort_values (key : row -> option sort_value) (rs : list row)
  : list row :=
  (map snd (stable_sort (fun a b => sort_value_leb (fst a) (fst b))
              (keyed_rows key rs))
   ++ unkeyed_rows key rs)%list.

(** The [.str] accessor refuses a column whose values are numbers only. *)
Definition is_str (c : cell) : bool :=
  match c with
  | Str _ => true
  | _ => false
  end.

Definition str_accessor_ok (vals : list cell) : bool :=
  forallb isna vals || existsb is_str vals.

(** ** Grouping: [df.groupby(brand_col, dropna=False)] *)

Definition is_number (c : cell) : bool :=
  match c with
  | Int _ | Float _ => true
  | _ => false
  end.

Definition number_of (c : cell) : Q :=
  match c with
  | Int n => inject_Z n
  | Float q => q
  | _ => 0%Q
  end.

(** two cells are the same group key; all missing markers are one key *)
Definition group_key_eqb (a b : cell) : bool :=
  match a, b with
  | Str s, Str t => String.eqb s t
  | Str _, _ | _, Str _ => false
  | _, _ =>
      if is_number a && is_number b then Qeq_bool (number_of a) (number_of b)
      else isna a && isna b
  end.

(** the order the groups come in: numbers, then text, the missing key last *)
Definition group_key_leb (a b : cell) : bool :=
  match a, b with
  | Str s, Str t => String.leb s t
  | Str _, _ => isna b
  | _, Str _ => is_number a
  | _, _ =>
      if is_number a && is_number b then Qle_bool (number_of a) (number_of b)
      else isna b
  end.

(** put a row into the group of its key, opening the group, at its place in
    key order, when the key is new *)
Fixpoint add_to_groups (k : cell) (r : row) (gs : list (cell * list row))
  : list (cell * list row) :=
  match gs with
  | [] => [(k, [r])]
  | (k', rs) :: gs' =>
      if group_key_eqb k k' then (k', (rs ++ [r])%list) :: gs'
      else if group_key_leb k k' then (k, [r]) :: gs
      else (k', rs) :: add_to_groups k r gs'
  end.

Definition groupby (key : row -> cell) (rs : list row)
  : list (cell * list row) :=
  fold_left (fun gs r => add_to_groups (key r) r gs) rs [].

(** ** Records: [to_dict(orient="records")] *)

(** the native Python values a record holds *)
Inductive pyval :=
| VNone
| VStr (s : string)
| VInt (n : Z)
| VFloat (q : Q)
| VNaN.

(** [maybe_box_native]: [pd.NA] is boxed to [None]; the float [nan] stays *)
Definition maybe_box_native (c : cell) : pyval :=
  match c with
  | Str s => VStr s
  | Int n => VInt n
  | Float q => VFloat q
  | NaN => VNaN
  | NA => VNone
  | PyNone => VNone
  end.

Definition record : Type := list (string * pyval).

(** [d[k] = v] on an insertion-ordered dict *)
Fixpoint dict_set (k : string) (v : pyval) (d : record) : record :=
  match d with
  | [] => [(k, v)]
  | (k', v') :: d' =>
      if String.eqb k k' then (k', v) :: d' else (k', v') :: dict_set k v d'
  end.

Fixpoint dict_get (k : string) (d : record) : option pyval :=
  match d with
  | [] => None
  | (k', v') :: d' => if String.eqb k k' then Some v' else dict_get k d'
  end.

(** [dict(zip(columns, values))] with the values boxed *)
Definition to_record (fields : list (string * cell)) : record :=
  fold_left (fun d kv => dict_set (fst kv) (maybe_box_native (snd kv)) d)
    fields [].

(** [drop(columns=[label])] on one row, as header/value pairs *)
Definition drop_label (label : string) (cols : list string) (cells : list cell)
  : list (string * cell) :=
  filter (fun kv => negb (String.eqb (fst kv) label)) (combine cols cells).

(** ** The output document and [json.dump] *)

Record brand_group := {
  name : option string;
  products : list record
}.

(** the Python object handed to [json.dump] *)
#[local] Unset Elimination Schemes.
Inductive pyobj :=
| PVal (v : pyval)
| PList (items : list pyobj)
| PDict (items : list (string * pyobj)).
#[local] Set Elimination Schemes.

Definition name_obj (n : option string) : pyobj :=
  match n with
  | Some s => PVal (VStr s)
  | None => PVal VNone
  end.

Definition record_obj (r : record) : pyobj :=
  PDict (map (fun kv => (fst kv, PVal (snd kv))) r).

(** [{"name": ..., "products": products}] (lines 91-94) *)
Definition brand_obj (b : brand_group) : pyobj :=
  PDict [("name", name_obj (name b));
         ("products", PList (map record_obj (products b)))].

(** [{"brands": brands_sorted}] (line 97) *)
Definition output_obj (brands : list brand_group) : pyobj :=
  PDict [("brands", PList (map brand_obj brands))].

Module Json.

Definition dquote : string := String (ascii_of_nat 34) EmptyString.
Definition backslash : string := String (ascii_of_nat 92) EmptyString.
Definition newline : string := String (ascii_of_nat 10) EmptyString.

Definition hex_digit (n : nat) : string :=
  String (nth n (list_ascii_of_string "0123456789abcdef") "0"%char) EmptyString.

(** With [ensure_ascii=False] only the quote, the backslash and the control
    characters are escaped; every other byte is written as it is. *)
Definition escape_char (c : ascii) : string :=
  let n := PyStr.code c in
  if (n =? 34)%nat then backslash ++ dquote
  else if (n =? 92)%nat then backslash ++ backslash
  else if (n =? 10)%nat then backslash ++ "n"
  else if (n =? 13)%nat then backslash ++ "r"
  else if (n =? 9)%nat then backslash ++ "t"
  else if (n =? 8)%nat then backslash ++ "b"
  else if (n =? 12)%nat then backslash ++ "f"
  else if (n <? 32)%nat
       then backslash ++ "u00" ++ hex_digit (n / 16) ++ hex_digit (n mod 16)
  else String c EmptyString.

Fixpoint escape (s : string) : string :=
  match s with
  | EmptyString => EmptyString
  | String c s' => escape_char c ++ escape s'
  end.

Definition encode_string (s : string) : string :=
  dquote ++ escape s ++ dquote.

Fixpoint spaces (n : nat) : string :=
  match n with
  | O => EmptyString
  | S n' => String " "%char (spaces n')
  end.

(** a line break and the indentation of nesting level [level], two blanks
    a level ([indent=2]) *)
Definition newline_indent (level : nat) : string :=
  newline ++ spaces (2 * level).

End Json.

Section Pipeline.

(** [repr] of a finite float *)
Variable float_repr : Q -> string.

(** [str(x)] of a cell value *)
Definition py_str (c : cell) : string :=
  match c with
  | Str s => s
  | Int n => PyStr.of_Z n
  | Float q => float_repr q
  | NaN => "nan"
  | NA => "<NA>"
  | PyNone => "None"
  end.

(** *** [json.dump(output, f, ensure_ascii=False, indent=2)] *)

Definition encode_val (v : pyval) : string :=
  match v with
  | VNone => "null"
  | VStr s => Json.encode_string s
  | VInt n => PyStr.of_Z n
  | VFloat q => float_repr q
  | VNaN => "NaN"
  end.

Fixpoint encode (level : nat) (o : pyobj) {struct o} : string :=
  match o with
  | PVal v => encode_val v
  | PList [] => "[]"
  | PList (x :: xs) =>
      "[" ++ Json.newline_indent (S level) ++ encode (S level) x
      ++ (fix more (l : list pyobj) : string :=
            match l with
            | [] => EmptyString
            | y :: l' =>
                "," ++ Json.newline_indent (S level) ++ encode (S level) y
                ++ more l'
            end) xs
      ++ Json.newline_indent level ++ "]"
  | PDict [] => "{}"
  | PDict ((k, x) :: kxs) =>
      "{" ++ Json.newline_indent (S level)
      ++ Json.encode_string k ++ ": " ++ encode (S level) x
      ++ (fix more (l : list (string * pyobj)) : string :=
            match l with
            | [] => EmptyString
            | (k', y) :: l' =>
                "," ++ Json.newline_indent (S level)
                ++ Json.encode_string k' ++ ": " ++ encode (S level) y
                ++ more l'
            end) kxs
      ++ Json.newline_indent level ++ "}"
  end.

Definition json_dump (o : pyobj) : string := encode 0 o.

(** *** Settings and column roles *)

Record settings := {
  image_base_url : string;
  brand_col : string;
  product_desc_col : string;
  article_code_col : string;
  discount_col : string;
  sort_products_by : option string
}.

Definition default_settings : settings := {|
  image_base_url :=
    "https://cdn.jsdelivr.net/gh/TVScoundrel/artstory-data-sources@main/product-images/";
  brand_col := "Brand";
  product_desc_col := "Products";
  article_code_col := "Article code ";
  discount_col := "Discount %";
  sort_products_by := None
|}.

(** truth value of an optional string: [None] and the empty string are
    false *)
Definition truthy (o : option string) : bool :=
  match o with
  | Some s => PyStr.truthy s
  | None => false
  end.

Record roles := {
  brand : string;
  product_desc : string;
  article_code : option string;
  discount : option string
}.

(** lines 40-43: the first column other than the Brand column whose dtype is
    [object] *)
Definition infer_product_desc (df : DataFrame) (brand : string)
  : option string :=
  find (fun c => negb (String.eqb c brand) && dtype_is_object (column df c))
    (columns df).

(** lines 34-48 *)
Definition resolve_roles (df : DataFrame) (cfg : settings) : result roles :=
  let b := find_col (columns df) (brand_col cfg) [] in
  match b with
  | Some brand =>
      if negb (PyStr.truthy brand)
      then Raise (ValueError "Could not find a 'Brand' column.")
      else
        let p := find_col (columns df) (product_desc_col cfg)
                   ["Product"; "Product name"; "Description"] in
        let p' := if truthy p then p
                  else match infer_product_desc df brand with
                       | Some c => Some c
                       | None => p
                       end in
        match p' with
        | Some pd =>
            if negb (PyStr.truthy pd)
            then Raise (ValueError "Could not infer a product description column.")
            else Ok {| brand := brand;
                       product_desc := pd;
                       article_code :=
                         find_col (columns df) (article_code_col cfg)
                           ["Article code"; "Code"; "SKU"];
                       discount :=
                         find_col (columns df) (discount_col cfg)
                           ["Discount%"; "Discount"; "DISCOUNT %"; "discount %"] |}
        | None => Raise (ValueError "Could not infer a product description column.")
        end
  | None => Raise (ValueError "Could not find a 'Brand' column.")
  end.

(** *** The column transformations (lines 50-74) *)

(** line 50 on one cell: [astype(str)], then [.str.strip()] *)
Definition stripped (c : cell) : cell := Str (PyStr.strip (py_str c)).

(** line 50: [df[brand_col] = df[brand_col].astype(str).str.strip()] *)
Definition strip_brand (brand : string) (df : DataFrame) : DataFrame :=
  {| columns := columns df;
     data := map (fun r => (fst r, map_label (columns df) brand stripped (snd r)))
               (data df) |}.

(** line 61: [df.rename(columns={discount_col: "Discount"})] *)
Definition rename_label (old new : string) (cols : list string) : list string :=
  map (fun c => if String.eqb c old then new else c) cols.

(** lines 52-61 *)
Definition discount_step (discount : option string) (df : DataFrame)
  : result DataFrame :=
  match discount with
  | Some dc =>
      if PyStr.truthy dc && in_columns dc (columns df)
      then
        rows <- mapM (fun r =>
                        cells <- mapM_label (columns df) dc normalize_discount (snd r) ;;
                        Ok (fst r, cells)) (data df) ;;
        Ok {| columns := rename_label dc "Discount" (columns df); data := rows |}
      else Ok df
  | None => Ok df
  end.

(** lines 65-73 *)
Definition build_image (image_base_url : string) (val : cell) : cell :=
  if isna val then PyNone
  else
    let v := PyStr.strip (py_str val) in
    if String.eqb v "" then PyNone
    else if PyStr.endswith_any (PyStr.lower v) [".jpg"; ".jpeg"; ".png"; ".webp"]
         then Str (image_base_url ++ v)
         else Str (image_base_url ++ v ++ ".jpg").

(** [df[label] = values]: an existing column is overwritten in place, a new
    one is added at the end *)
Definition assign_column (label : string) (value : row -> cell)
  (df : DataFrame) : DataFrame :=
  if in_columns label (columns df)
  then {| columns := columns df;
          data := map (fun r => (fst r,
                                 map_label (columns df) label
                                   (fun _ => value r) (snd r)))
                    (data df) |}
  else {| columns := (columns df ++ [label])%list;
          data := map (fun r => (fst r, (snd r ++ [value r])%list)) (data df) |}.

(** lines 64-74; with two columns of that name [df[article_code_col]] is a
    frame, and [build_image] fails on [pd.isna] of a whole column *)
Definition image_step (article_code : option string) (image_base_url : string)
  (df : DataFrame) : result DataFrame :=
  match article_code with
  | Some ac =>
      if PyStr.truthy ac && in_columns ac (columns df)
         && PyStr.truthy image_base_url
      then
        if (occurrences ac (columns df) =? 1)%nat
        then Ok (assign_column "Image"
                   (fun r => build_image image_base_url (cell_of (columns df) ac r))
                   df)
        else Raise (ValueError "The truth value of a Series is ambiguous.")
      else Ok df
  | None => Ok df
  end.

(** *** Grouping and sorting (lines 76-96) *)

(** line 76: [sort_products_by or product_desc_col] *)
Definition sort_key (cfg : settings) (product_desc : string) : string :=
  if truthy (sort_products_by cfg)
  then match sort_products_by cfg with
       | Some s => s
       | None => product_desc
       end
  else product_desc.

(** lines 80-87 for one group; [is_object] is the dtype of the sort column *)
Definition sort_group (cols : list string) (key_label : string)
  (is_object : bool) (rs : list row) : result (list row) :=
  match occurrences key_label cols with
  | 0 => Ok rs
  | 1 =>
      if is_object && negb (str_accessor_ok (map (cell_of cols key_label) rs))
      then Raise (AttributeError "Can only use .str accessor with string values!")
      else Ok (sort_values
                 (fun r => sort_key_of is_object (cell_of cols key_label r)) rs)
  | _ => Raise (ValueError "The column label is not unique.")
  end.

(** line 92 *)
Definition group_name (k : cell) : option string :=
  if isna k then None else Some (py_str k).

(** line 89: [group_sorted.drop(columns=[brand_col]).to_dict(orient="records")] *)
Definition to_products (cols : list string) (brand : string) (rs : list row)
  : list record :=
  map (fun r => to_record (drop_label brand cols (snd r))) rs.

(** The loop of lines 79-94 up to the sorted group: the name of each group
    and its rows in their final order. *)
Definition sorted_groups (df : DataFrame) (brand key_label : string)
  : result (list (option string * list row)) :=
  match occurrences brand (columns df) with
  | 0 => Raise (KeyError brand)
  | 1 =>
      mapM (fun g =>
              rs <- sort_group (columns df) key_label
                      (dtype_is_object (column df key_label)) (snd g) ;;
              Ok (group_name (fst g), rs))
        (groupby (cell_of (columns df) brand) (data df))
  | _ => Raise (ValueError "Grouper is not 1-dimensional.")
  end.

(** the sort key of line 96: [(b["name"] is None, (b["name"] or "").lower())] *)
Definition brand_key (n : option string) : bool * string :=
  match n with
  | Some s => (false, PyStr.lower s)
  | None => (true, PyStr.lower "")
  end.

(** tuple comparison, [False < True] *)
Definition brand_key_leb (a b : bool * string) : bool :=
  match fst a, fst b with
  | false, true => true
  | true, false => false
  | _, _ => String.leb (snd a) (snd b)
  end.

(** line 96: [sorted(brands, key=...)] *)
Definition sort_brands (brands : list brand_group) : list brand_group :=
  stable_sort (fun a b => brand_key_leb (brand_key (name a)) (brand_key (name b)))
    brands.

(** lines 50-74 *)
Definition transform (df : DataFrame) (cfg : settings) (r : roles)
  : result DataFrame :=
  df1 <- discount_step (discount r) (strip_brand (brand r) df) ;;
  image_step (article_code r) (image_base_url cfg) df1.

(** lines 34-94: the transformed frame's groups *)
Definition grouped (df : DataFrame) (cfg : settings)
  : result (DataFrame * roles * list (option string * list row)) :=
  r <- resolve_roles df cfg ;;
  df' <- transform df cfg r ;;
  gs <- sorted_groups df' (brand r) (sort_key cfg (product_desc r)) ;;
  Ok (df', r, gs).

(** lines 34-96: [brands_sorted] *)
Definition brands_sorted (df : DataFrame) (cfg : settings)
  : result (list brand_group) :=
  x <- grouped df cfg ;;
  let '(df', r, gs) := x in
  Ok (sort_brands
        (map (fun g => {| name := fst g;
                          products := to_products (columns df') (brand r) (snd g) |})
           gs)).

(** What a run leaves behind: the exception that ended it, if any, and the
    content of the output file, if the file was opened at all. *)
Record outcome := {
  raised : option exn;
  written : option string
}.

(** The whole function, on the frame [pd.read_excel] returned.  Every
    [raise] of lines 34-96 happens before the file is opened on line 100. *)
Definition convert_excel_to_json (df : DataFrame) (cfg : settings) : outcome :=
  match brands_sorted df cfg with
  | Raise e => {| raised := Some e; written := None |}
  | Ok brands =>
      {| raised := None; written := Some (json_dump (output_obj brands)) |}
  end.

End Pipeline.

(** ** Definitions the properties are stated with *)

(** the value the specification gives a Discount cell: [round(abs(x))] for a
    cell that is the number [x], missing otherwise (an infinite value never
    reaches a record: the cast of line 57 raises on it) *)
Definition discount_value (c : cell) : pyval :=
  match Numeric.to_numeric c with
  | Numeric.Finite q => VInt (Numeric.round_half_even (Qabs q))
  | _ => VNone
  end.

(** the rows of a list in their order, some of them left out *)
Inductive subseq {A : Type} : list A -> list A -> Prop :=
| subseq_nil : subseq [] []
| subseq_skip (x : A) (l1 l2 : list A) : subseq l1 l2 -> subseq l1 (x :: l2)
| subseq_keep (x : A) (l1 l2 : list A) : subseq l1 l2 -> subseq (x :: l1) (x :: l2).

(** the order [sort_values] puts rows in: ascending sort values, the rows
    without a value last *)
Definition row_order (key : row -> option sort_value) (a b : row) : Prop :=
  match key a, key b with
  | Some x, Some y => sort_value_leb x y = true
  | Some _, None => True
  | None, Some _ => False
  | None, None => True
  end.

(** the order of the output's groups: named groups by their lower-cased
    name, the groups without a name after them *)
Definition brand_order (a b : brand_group) : Prop :=
  match name a, name b with
  | Some x, Some y => String.leb (PyStr.lower x) (PyStr.lower y) = true
  | Some _, None => True
  | None, Some _ => False
  | None, None => True
  end.

(** the output entry of a group: its name and the records of its rows *)
Definition entry_of (df' : DataFrame) (r : roles) (g : option string * list row)
  : brand_group :=
  {| name := fst g; products := to_products (columns df') (brand r) (snd g) |}.

(** a field with its value boxed for the record *)
Definition boxed (kv : string * cell) : string * pyval :=
  (fst kv, maybe_box_native (snd kv)).

(** a frame as [read_excel] returns it: distinct, non-empty header names and
    one cell per header in every row *)
Definition well_formed (df : DataFrame) : Prop :=
  NoDup (columns df)
  /\ ~ In "" (columns df)
  /\ Forall (fun x => List.length (snd x) = List.length (columns df)) (data df).

(** the headers a product record keeps from the table: all but the Brand
    column, the Discount column under its new name *)
Definition kept_columns (cols : list string) (r : roles) : list string :=
  filter (fun c => negb (String.eqb c (brand r)))
    match discount r with
    | Some dc => rename_label dc "Discount" cols
    | None => cols
    end.

(** the Discount field of a product record holds the specification's value
    of the Discount cell of a row of the table *)
Definition discount_field_ok (df : DataFrame) (dc : string) (p : record) : Prop :=
  exists x, In x (data df)
    /\ dict_get "Discount" p = Some (discount_value (cell_of (columns df) dc x)).

(** the fields of a product record are the kept columns in order and then,
    possibly, Image; every kept column other than the Discount column has the
    row's value; the Brand column is gone; the Discount field has the
    normalised value *)
Definition product_fields_ok (df : DataFrame) (cfg : settings) (r : roles)
  (p : record) : Prop :=
  exists x, In x (data df)
    /\ (exists image_keys,
          map fst p = (kept_columns (columns df) r ++ image_keys)%list
          /\ (image_keys = []
              \/ (image_keys = ["Image"] /\ article_code r <> None
                  /\ image_base_url cfg <> "")))
    /\ (forall c, In c (columns df) -> c <> brand r -> discount r <> Some c ->
          dict_get c p = Some (maybe_box_native (cell_of (columns df) c x)))
    /\ dict_get (brand r) p = None
    /\ (forall dc, discount r = Some dc ->
          dict_get "Discount" p
          = Some (discount_value (cell_of (columns df) dc x))).

(** the two statements as the specification has them: for every table, with
    no condition on its other columns *)
Definition discount_claim (float_repr : Q -> string) (df : DataFrame)
  (cfg : settings) : Prop :=
  forall r dc bs,
    resolve_roles df cfg = Ok r -> discount r = Some dc ->
    brands_sorted float_repr df cfg = Ok bs ->
    forall b p, In b bs -> In p (products b) -> discount_field_ok df dc p.

Definition record_frame_claim (float_repr : Q -> string) (df : DataFrame)
  (cfg : settings) : Prop :=
  forall r bs,
    resolve_roles df cfg = Ok r ->
    brands_sorted float_repr df cfg = Ok bs ->
    forall b p, In b bs -> In p (products b) -> product_fields_ok df cfg r p.

(** ** Sample tables *)

(** The sample tables hold no float, so how a float prints does not matter
    for them; this printer stands in. *)
Definition no_floats (q : Q) : string := "0.0".

(** lines of text, joined by line breaks *)
Definition text (lines : list string) : string := String.concat Json.newline lines.

(** a small catalogue: two brands, a discount that does not parse and a row
    without an article code *)
Definition catalogue : DataFrame := {|
  columns := ["Brand"; "Products"; "Article code "; "Discount %"];
  data := [ (0, [Str "zeta"; Str "b-prod"; Str "A1"; Str "-12.6"]);
            (1, [Str "Alpha"; Str "Widget"; Str " B2.PNG "; Str "n/a"]);
            (2, [Str "zeta"; Str "A-prod"; NaN; Int 7]) ]
|}.

Definition catalogue_roles : roles := {|
  brand := "Brand";
  product_desc := "Products";
  article_code := Some "Article code ";
  discount := Some "Discount %"
|}.

(** the transformed frame, the roles and the sorted groups of the catalogue *)
Definition catalogue_grouped
  : DataFrame * roles * list (option string * list row) :=
  Eval vm_compute in
    match grouped no_floats catalogue default_settings with
    | Ok x => x
    | Raise _ => (catalogue, catalogue_roles, [])
    end.

Definition catalogue_brands : list brand_group :=
  Eval vm_compute in
    match brands_sorted no_floats catalogue default_settings with
    | Ok bs => bs
    | Raise _ => []
    end.

(** the product sort column named in another case than the header has *)
Definition settings_sort_by_products : settings := {|
  image_base_url := image_base_url default_settings;
  brand_col := "Brand";
  product_desc_col := "Products";
  article_code_col := "Article code ";
  discount_col := "Discount %";
  sort_products_by := Some "products"
|}.

(** the index labels of the rows of each group, in their final order *)
Definition group_labels (x : result (DataFrame * roles * list (option string * list row)))
  : list (list nat) :=
  match x with
  | Ok (_, _, gs) => map (fun g => map fst (snd g)) gs
  | Raise _ => []
  end.

(** a row whose Brand cell is empty *)
Definition sheet_missing_brand : DataFrame := {|
  columns := ["Brand"; "Products"];
  data := [ (0, [NaN; Str "Widget"]) ]
|}.

(** a row whose product description is empty *)
Definition sheet_missing_cell : DataFrame := {|
  columns := ["Brand"; "Products"];
  data := [ (0, [Str "Café"; Str "Widget"]); (1, [Str "Café"; NaN]) ]
|}.

(** a table that has a column named Discount beside its Discount column *)
Definition sheet_two_discounts : DataFrame := {|
  columns := ["Brand"; "Products"; "Discount %"; "Discount"];
  data := [ (0, [Str "Acme"; Str "Widget"; Str "-10"; Str "n/a"]) ]
|}.

(** a table that has a column named Image *)
Definition sheet_with_image : DataFrame := {|
  columns := ["Brand"; "Products"; "Article code "; "Image"];
  data := [ (0, [Str "Acme"; Str "Widget"; Str "A1"; Str "own.png"]) ]
|}.

(** a table grouped by its Discount column ([--brand-col Discount]) *)
Definition sheet_discount_is_brand : DataFrame := {|
  columns := ["Discount"; "Products"];
  data := [ (0, [Str "12"; Str "Widget"]) ]
|}.

Definition settings_brand_is_discount : settings := {|
  image_base_url := image_base_url default_settings;
  brand_col := "Discount";
  product_desc_col := "Products";
  article_code_col := "Article code ";
  discount_col := "Discount %";
  sort_products_by := None
|}.

(** a table without a Brand column, and one whose only other column is
    numeric *)
Definition sheet_no_brand : DataFrame := {|
  columns := ["Name"; "Products"];
  data := [ (0, [Str "Acme"; Str "Widget"]) ]
|}.

Definition sheet_numbers_only : DataFrame := {|
  columns := ["Brand"; "Price"];
  data := [ (0, [Str "Acme"; Int 3]) ]
|}.

(** ** Definitions the further properties are stated with *)

(** some header matches one of the names up to case and surrounding blanks *)
Definition has_loose_match (cols names : list string) : bool :=
  existsb (fun name => existsb (fun c => loose_eq c name) cols) names.

(** the string does not start with a blank *)
Definition starts_clean (s : string) : bool :=
  match s with
  | EmptyString => true
  | String c _ => negb (PyStr.isspace c)
  end.

(** the string does not end with a blank *)
Fixpoint ends_clean (s : string) : bool :=
  match s with
  | EmptyString => true
  | String c EmptyString => negb (PyStr.isspace c)
  | String _ s' => ends_clean s'
  end.

(** the string starts with neither a blank nor a sign *)
Definition unsigned_start (s : string) : bool :=
  match s with
  | EmptyString => false
  | String c _ =>
      negb (Numeric.isblank c) && negb (Ascii.eqb c "-") && negb (Ascii.eqb c "+")
  end.

(** text keys in strictly ascending order *)
Definition key_lt (a b : cell) : Prop :=
  match a, b with
  | Str s, Str t => String.leb s t = true /\ s <> t
  | _, _ => False
  end.

(** of two entries whose names differ by case only, the one with the
    smaller name comes first *)
Definition tie_order (a b : brand_group) : Prop :=
  forall x y, name a = Some x -> name b = Some y ->
    PyStr.lower x = PyStr.lower y -> String.leb x y = true /\ x <> y.

(** the document written for an empty list of brands *)
Definition empty_document : string :=
  text ["{"; "  " ++ Json.dquote ++ "brands" ++ Json.dquote ++ ": []"; "}"].

(** two brands whose names differ by case only *)
Definition sheet_case_variants : DataFrame := {|
  columns := ["Brand"; "Products"];
  data := [ (0, [Str "acme"; Str "Widget"]);
            (1, [Str "Zeta"; Str "Gadget"]);
            (2, [Str "ACME"; Str "Gizmo"]) ]
|}.

(** a table with headers and no rows *)
Definition sheet_no_rows : DataFrame := {|
  columns := ["Brand"; "Products"; "Discount %"];
  data := []
|}.

(** a Discount cell that reads as infinity *)
Definition sheet_infinite_discount : DataFrame := {|
  columns := ["Brand"; "Products"; "Discount %"];
  data := [ (0, [Str "Acme"; Str "Widget"; Str "-10"]);
            (1, [Str "Acme"; Str "Gadget"; Str "inf"]) ]
|}.

(** the error of the cast of line 57 *)
Definition cast_error : exn :=
  TypeError "cannot safely cast non-equivalent float64 to int64".

(** the roles in a table that has a Brand and a Products column only *)
Definition plain_roles : roles := {|
  brand := "Brand";
  product_desc := "Products";
  article_code := None;
  discount := None
|}.

(** the same with a Discount column *)
Definition discount_roles : roles := {|
  brand := "Brand";
  product_desc := "Products";
  article_code := None;
  discount := Some "Discount %"
|}.

Definition case_variant_brands : list brand_group :=
  Eval vm_compute in
    match brands_sorted no_floats sheet_case_variants default_settings with
    | Ok bs => bs
    | Raise _ => []
    end.

(** a table whose product description column goes by no known name *)
Definition sheet_unnamed_products : DataFrame := {|
  columns := ["Brand"; "Price"; "Item"; "Note"];
  data := [ (0, [Str "Acme"; Int 3; Str "Widget"; Str "new"]) ]
|}.

Definition inferred_roles : roles := {|
  brand := "Brand";
  product_desc := "Item";
  article_code := None;
  discount := None
|}.

(** * Properties *)

(** ** Strings *)

Lemma prefix_app (a b : string) :
  prefix a b = true <-> exists t, b = a ++ t.
Proof.
  revert b; induction a as [|c a IH]; intros b; simpl.
  - split; [intros _; exists b; reflexivity | destruct b; reflexivity].
  - destruct b as [|c' b].
    + split; [discriminate | intros [t Ht]; discriminate].
    + simpl. destruct (ascii_dec c c') as [->|Hne].
      * rewrite IH. split; intros [t Ht]; exists t.
        -- now rewrite Ht.
        -- now inversion Ht.
      * split; [discriminate | intros [t Ht]; inversion Ht; subst; now elim Hne].
Qed.

Lemma append_assoc (a b c : string) : (a ++ b) ++ c = a ++ (b ++ c).
Proof. induction a; simpl; congruence. Qed.

Lemma append_nil_r (a : string) : a ++ "" = a.
Proof. induction a; simpl; congruence. Qed.

Lemma rev_string_acc (s acc : string) :
  PyStr.rev_string s acc = PyStr.rev_string s "" ++ acc.
Proof.
  revert acc; induction s as [|c s IH]; intros acc; simpl.
  - reflexivity.
  - rewrite IH, (IH (String c "")), append_assoc. reflexivity.
Qed.

Lemma rev_string_app (a b : string) :
  PyStr.rev_string (a ++ b) "" = PyStr.rev_string b "" ++ PyStr.rev_string a "".
Proof.
  induction a as [|c a IH]; simpl.
  - now rewrite append_nil_r.
  - rewrite rev_string_acc, IH, (rev_string_acc a (String c "")), append_assoc.
    reflexivity.
Qed.

Lemma rev_string_involutive (s : string) :
  PyStr.rev_string (PyStr.rev_string s "") "" = s.
Proof.
  induction s as [|c s IH]; simpl.
  - reflexivity.
  - rewrite (rev_string_acc s (String c "")), rev_string_app, IH. reflexivity.
Qed.

(** [endswith] is what its name says. *)
Lemma endswith_spec (s suffix : string) :
  PyStr.endswith s suffix = true <-> exists p, s = p ++ suffix.
Proof.
  unfold PyStr.endswith. rewrite prefix_app. split.
  - intros [t Ht]. exists (PyStr.rev_string t "").
    rewrite <- (rev_string_involutive s), Ht, rev_string_app,
      rev_string_involutive. reflexivity.
  - intros [p ->]. exists (PyStr.rev_string p ""). apply rev_string_app.
Qed.

Lemma in_columns_In (c : string) (cols : list string) :
  in_columns c cols = true <-> In c cols.
Proof.
  unfold in_columns. rewrite existsb_exists. split.
  - intros [x [Hx He]]. apply String.eqb_eq in He. now subst.
  - intros H. exists c. split; [assumption | apply String.eqb_refl].
Qed.

(** ** Column resolution *)

Lemma find_fallbacks_first_hit (cols fallbacks : list string) :
  find_fallbacks cols fallbacks
  = ResolveSpec.first_hit cols
      (flat_map (fun n => [ResolveSpec.Exact n; ResolveSpec.Loose n]) fallbacks).
Proof.
  induction fallbacks as [|n rest IH]; simpl.
  - reflexivity.
  - destruct (in_columns n cols); [reflexivity|].
    destruct (first_loose cols n); [reflexivity | exact IH].
Qed.

Lemma run_in_columns (cols : list string) (s : ResolveSpec.step) (c : string) :
  ResolveSpec.run cols s = Some c -> In c cols.
Proof.
  destruct s as [n|n]; simpl.
  - destruct (in_columns n cols) eqn:E; [|discriminate].
    intros [= <-]. now apply in_columns_In.
  - unfold first_loose. intros H. apply find_some in H. tauto.
Qed.

Lemma first_hit_split (cols : list string) (steps : list ResolveSpec.step) :
  match ResolveSpec.first_hit cols steps with
  | Some c =>
      exists before s after,
        steps = (before ++ s :: after)%list
        /\ Forall (fun t => ResolveSpec.run cols t = None) before
        /\ ResolveSpec.run cols s = Some c
  | None => Forall (fun s => ResolveSpec.run cols s = None) steps
  end.
Proof.
  induction steps as [|s rest IH]; simpl.
  - constructor.
  - destruct (ResolveSpec.run cols s) as [c|] eqn:E.
    + exists [], s, rest. repeat split; [constructor | assumption].
    + destruct (ResolveSpec.first_hit cols rest) as [c|].
      * destruct IH as (before & s' & after & -> & Hb & Hs).
        exists (s :: before), s', after. repeat split; [constructor|]; assumption.
      * constructor; assumption.
Qed.

Lemma find_col_resolve (cols : list string) (canonical : string)
  (fallbacks : list string) :
  find_col cols canonical fallbacks
  = ResolveSpec.resolve cols canonical fallbacks.
Proof.
  unfold find_col, ResolveSpec.resolve, ResolveSpec.search_order. simpl.
  destruct (in_columns canonical cols); [reflexivity|].
  destruct (first_loose cols canonical); [reflexivity|].
  apply find_fallbacks_first_hit.
Qed.


(** the header found for a role is one of the table's *)
Lemma find_col_In (cols : list string) (t : string) (fbs : list string) (c : string) :
  find_col cols t fbs = Some c -> In c cols.
Proof.
  rewrite find_col_resolve. unfold ResolveSpec.resolve. intros H.
  pose proof (first_hit_split cols (ResolveSpec.search_order t fbs)) as K.
  rewrite H in K. destruct K as (before & s & after & _ & _ & Hs).
  eapply run_in_columns; eassumption.
Qed.

(** ** Discount values *)

Lemma round_half_even_opp (n : Z) (d : positive) :
  Numeric.round_half_even (- n # d) = (- Numeric.round_half_even (n # d))%Z.
Proof.
  unfold Numeric.round_half_even. cbn [Qnum Qden].
  set (D := Zpos d).
  assert (HD : (0 < D)%Z) by (subst D; lia).
  pose proof (Z.div_mod n D ltac:(lia)) as Hn.
  pose proof (Z.mod_pos_bound n D HD) as Hm.
  pose proof (Z.div_mod (- n) D ltac:(lia)) as Hn'.
  pose proof (Z.mod_pos_bound (- n) D HD) as Hm'.
  set (f := (n / D)%Z) in *. set (m := (n mod D)%Z) in *.
  set (f' := (- n / D)%Z) in *. set (m' := (- n mod D)%Z) in *.
  assert (Hs : (f + f' = 0 \/ f + f' = -1)%Z) by nia.
  assert (Hcase : (m = 0 /\ m' = 0 /\ f' = - f)%Z
                  \/ (0 < m /\ m' = D - m /\ f' = - f - 1)%Z).
  { destruct Hs as [Hs|Hs].
    - left. assert (f' = - f)%Z by lia. subst f'. nia.
    - right. assert (f' = - f - 1)%Z by lia. nia. }
  destruct Hcase as [(Hm0 & Hm0' & Hf) | (Hpos & Hm1 & Hf)].
  - rewrite Hm0, Hm0', Hf.
    destruct (Z.compare_spec (2 * 0) D); lia.
  - rewrite Hm1, Hf.
    destruct (Z.compare_spec (2 * m) D) as [E|E|E];
      destruct (Z.compare_spec (2 * (D - m)) D) as [E'|E'|E']; try lia.
    replace (- f - 1)%Z with (- (f + 1))%Z by lia.
    rewrite Z.even_opp, Z.even_add. simpl.
    destruct (Z.even f); simpl; lia.
Qed.

Lemma round_half_even_sign (n : Z) (d : positive) :
  ((0 <= n -> 0 <= Numeric.round_half_even (n # d))
   /\ (n <= 0 -> Numeric.round_half_even (n # d) <= 0))%Z.
Proof.
  unfold Numeric.round_half_even. cbn [Qnum Qden].
  set (D := Zpos d).
  assert (HD : (0 < D)%Z) by (subst D; lia).
  pose proof (Z.div_mod n D ltac:(lia)) as Hn.
  pose proof (Z.mod_pos_bound n D HD) as Hm.
  set (f := (n / D)%Z) in *. set (m := (n mod D)%Z) in *.
  split; intros Hs.
  - assert (0 <= f)%Z by nia.
    destruct (2 * m ?= D)%Z; [destruct (Z.even f)|..]; lia.
  - assert (Hf : (f <= 0)%Z) by nia.
    destruct (Z.compare_spec (2 * m) D) as [E|E|E].
    + destruct (Z.even f) eqn:Ev; [lia|].
      assert (f <> 0)%Z by (intros Hz; rewrite Hz in Ev; discriminate). lia.
    + lia.
    + assert (f <> 0)%Z by nia. lia.
Qed.

(** Rounding to the nearest integer (ties to even) and taking the absolute
    value commute: the script rounds first, the specification takes the
    absolute value first. *)
Lemma round_abs_commute (q : Q) :
  Z.abs (Numeric.round_half_even q) = Numeric.round_half_even (Qabs q).
Proof.
  destruct q as [n d]. unfold Qabs.
  destruct (Z.le_ge_cases 0 n) as [Hn|Hn].
  - rewrite (Z.abs_eq n Hn).
    apply Z.abs_eq. now apply round_half_even_sign.
  - rewrite (Z.abs_neq n Hn), round_half_even_opp.
    apply Z.abs_neq. now apply round_half_even_sign.
Qed.

(** What lines 53-59 leave in a Discount cell when they do not raise: boxed
    for the record, it is the specification's value. *)
Lemma normalize_discount_value (c v : cell) :
  normalize_discount c = Ok v -> maybe_box_native v = discount_value c.
Proof.
  unfold normalize_discount, discount_value.
  destruct (Numeric.to_numeric c) as [q| |]; simpl.
  - rewrite Z.div_1_r.
    destruct (Qeq_bool _ _ && _); simpl; [|discriminate].
    intros [= <-]. simpl. now rewrite round_abs_commute.
  - discriminate.
  - intros [= <-]. reflexivity.
Qed.

(** ** Order on strings *)

Lemma ascii_compare_cases (a b : ascii) :
  match Ascii.compare a b with
  | Eq => a = b
  | Lt => (N_of_ascii a < N_of_ascii b)%N
  | Gt => (N_of_ascii b < N_of_ascii a)%N
  end.
Proof.
  destruct (Ascii.compare a b) eqn:E.
  - now apply Ascii.compare_eq_iff.
  - unfold Ascii.compare in E. now apply N.compare_lt_iff.
  - unfold Ascii.compare in E. now apply N.compare_gt_iff.
Qed.

Lemma string_leb_trans (a b c : string) :
  String.leb a b = true -> String.leb b c = true -> String.leb a c = true.
Proof.
  unfold String.leb.
  revert b c; induction a as [|x a IH]; intros [|y b] [|z c]; simpl;
    try reflexivity; try discriminate.
  pose proof (ascii_compare_cases x y) as Hxy.
  pose proof (ascii_compare_cases y z) as Hyz.
  pose proof (ascii_compare_cases x z) as Hxz.
  destruct (Ascii.compare x y), (Ascii.compare y z), (Ascii.compare x z);
    subst; try reflexivity; try discriminate; try lia; intros; try discriminate.
  eapply IH; eassumption.
Qed.

(** ** The stable sort *)

Section StableSortFacts.

Context {A : Type} (leb : A -> A -> bool).

Lemma insert_sorted_perm (x : A) (l : list A) :
  Permutation (insert_sorted leb x l) (x :: l).
Proof.
  induction l as [|y l IH]; simpl.
  - reflexivity.
  - destruct (leb x y).
    + reflexivity.
    + rewrite IH. apply perm_swap.
Qed.

Lemma stable_sort_perm (l : list A) : Permutation (stable_sort leb l) l.
Proof.
  induction l as [|x l IH]; simpl.
  - reflexivity.
  - rewrite insert_sorted_perm. now constructor.
Qed.

Hypothesis leb_total : forall a b, leb a b = true \/ leb b a = true.
Hypothesis leb_trans :
  forall a b c, leb a b = true -> leb b c = true -> leb a c = true.

Lemma insert_sorted_sorted (x : A) (l : list A) :
  StronglySorted (fun a b => leb a b = true) l ->
  StronglySorted (fun a b => leb a b = true) (insert_sorted leb x l).
Proof.
  induction 1 as [|y l Hs IH Hy]; simpl.
  - repeat constructor.
  - destruct (leb x y) eqn:E.
    + constructor; [now constructor|].
      constructor; [assumption|].
      eapply Forall_impl; [|exact Hy]. intros z Hz. eapply leb_trans; eassumption.
    + constructor; [assumption|].
      eapply Permutation_Forall.
      * symmetry. apply insert_sorted_perm.
      * constructor; [|assumption].
        destruct (leb_total x y) as [H|H]; [congruence | assumption].
Qed.

Lemma stable_sort_sorted (l : list A) :
  StronglySorted (fun a b => leb a b = true) (stable_sort leb l).
Proof.
  induction l as [|x l IH]; simpl.
  - constructor.
  - now apply insert_sorted_sorted.
Qed.

End StableSortFacts.

(** ** Results *)

Lemma mapM_Forall2 {A B : Type} (f : A -> result B) (l : list A) (l' : list B) :
  mapM f l = Ok l' -> Forall2 (fun a b => f a = Ok b) l l'.
Proof.
  revert l'; induction l as [|a l IH]; simpl; intros l'.
  - intros [= <-]. constructor.
  - destruct (f a) as [b|e] eqn:E; simpl; [|discriminate].
    destruct (mapM f l) as [bs|e]; simpl; [|discriminate].
    intros [= <-]. constructor; [assumption | now apply IH].
Qed.

(** ** Grouping *)

Lemma subseq_nil_l {A : Type} (l : list A) : subseq [] l.
Proof. induction l; [apply subseq_nil | now apply subseq_skip]. Qed.

Lemma subseq_snoc_skip {A : Type} (l1 l2 : list A) (x : A) :
  subseq l1 l2 -> subseq l1 (l2 ++ [x]).
Proof.
  induction 1; simpl.
  - apply subseq_skip, subseq_nil.
  - now apply subseq_skip.
  - now apply subseq_keep.
Qed.

Lemma subseq_snoc_keep {A : Type} (l1 l2 : list A) (x : A) :
  subseq l1 l2 -> subseq (l1 ++ [x]) (l2 ++ [x]).
Proof.
  induction 1; simpl.
  - apply subseq_keep, subseq_nil.
  - now apply subseq_skip.
  - now apply subseq_keep.
Qed.

Lemma add_to_groups_perm (k : cell) (r : row) (gs : list (cell * list row)) :
  Permutation (List.concat (map snd (add_to_groups k r gs)))
    (r :: List.concat (map snd gs)).
Proof.
  induction gs as [|[k' rs] gs IH]; simpl.
  - reflexivity.
  - destruct (group_key_eqb k k'); simpl.
    + rewrite <- app_assoc. simpl. symmetry. apply Permutation_middle.
    + destruct (group_key_leb k k'); simpl.
      * reflexivity.
      * rewrite IH. symmetry. apply Permutation_middle.
Qed.

Lemma add_to_groups_subseq (k : cell) (r : row) (gs : list (cell * list row))
  (seen : list row) :
  Forall (fun g => subseq (snd g) seen) gs ->
  Forall (fun g => subseq (snd g) (seen ++ [r])) (add_to_groups k r gs).
Proof.
  induction 1 as [|[k' rs] gs Hg Hgs IH]; simpl.
  - constructor; [|constructor]. simpl.
    apply (subseq_snoc_keep [] seen). apply subseq_nil_l.
  - assert (Hall : Forall (fun g => subseq (snd g) (seen ++ [r])) gs).
    { eapply Forall_impl; [|exact Hgs]. intros g. apply subseq_snoc_skip. }
    destruct (group_key_eqb k k').
    + constructor; [|assumption]. now apply subseq_snoc_keep.
    + destruct (group_key_leb k k').
      * constructor; [apply (subseq_snoc_keep [] seen), subseq_nil_l|].
        constructor; [now apply subseq_snoc_skip | assumption].
      * constructor; [now apply subseq_snoc_skip | assumption].
Qed.

Lemma groupby_fold (key : row -> cell) (rs seen : list row)
  (gs : list (cell * list row)) :
  Permutation (List.concat (map snd gs)) seen ->
  Forall (fun g => subseq (snd g) seen) gs ->
  let gs' := fold_left (fun gs r => add_to_groups (key r) r gs) rs gs in
  Permutation (List.concat (map snd gs')) (seen ++ rs)
  /\ Forall (fun g => subseq (snd g) (seen ++ rs)) gs'.
Proof.
  revert seen gs; induction rs as [|r rs IH]; intros seen gs Hp Hs; simpl.
  - rewrite app_nil_r. now split.
  - replace (seen ++ r :: rs)%list with ((seen ++ [r]) ++ rs)%list
      by (rewrite <- app_assoc; reflexivity).
    apply IH.
    + rewrite add_to_groups_perm, Hp. apply Permutation_cons_append.
    + now apply add_to_groups_subseq.
Qed.

(** The groups partition the rows, and each group keeps the order the rows
    have in the frame. *)
Lemma groupby_partition (key : row -> cell) (rs : list row) :
  Permutation (List.concat (map snd (groupby key rs))) rs
  /\ Forall (fun g => subseq (snd g) rs) (groupby key rs).
Proof.
  unfold groupby.
  apply (groupby_fold key rs [] []); constructor.
Qed.

(** ** Sorting the rows of a group *)

Lemma sort_value_leb_total (a b : sort_value) :
  sort_value_leb a b = true \/ sort_value_leb b a = true.
Proof.
  destruct a as [p|s], b as [q|t]; simpl; auto.
  - rewrite !Qle_bool_iff. destruct (Qlt_le_dec p q) as [H|H]; [left|right]; auto.
    now apply Qlt_le_weak.
  - apply String.leb_total.
Qed.

Lemma sort_value_leb_trans (a b c : sort_value) :
  sort_value_leb a b = true -> sort_value_leb b c = true ->
  sort_value_leb a c = true.
Proof.
  destruct a as [p|s], b as [q|t], c as [u|v]; simpl; try discriminate; auto.
  - rewrite !Qle_bool_iff. apply Qle_trans.
  - apply string_leb_trans.
Qed.

Lemma StronglySorted_map {A B : Type} (R : A -> A -> Prop) (S : B -> B -> Prop)
  (P : A -> Prop) (f : A -> B) (l : list A) :
  (forall a b, P a -> P b -> R a b -> S (f a) (f b)) ->
  Forall P l -> StronglySorted R l -> StronglySorted S (map f l).
Proof.
  intros HRS HP Hs. induction Hs as [|a l Hs IH Ha]; simpl.
  - constructor.
  - inversion HP as [|? ? Pa Pl]; subst.
    constructor; [now apply IH|].
    apply Forall_map. rewrite Forall_forall in *.
    intros b Hb. apply HRS; auto.
Qed.

Lemma StronglySorted_app {A : Type} (R : A -> A -> Prop) (l1 l2 : list A) :
  StronglySorted R l1 -> StronglySorted R l2 ->
  (forall a b, In a l1 -> In b l2 -> R a b) ->
  StronglySorted R (l1 ++ l2).
Proof.
  intros H1 H2 H12. induction H1 as [|a l H1 IH Ha]; simpl.
  - assumption.
  - constructor.
    + apply IH. intros x y Hx Hy. apply H12; [now right | assumption].
    + apply Forall_app. split; [assumption|].
      apply Forall_forall. intros y Hy. apply H12; [now left | assumption].
Qed.

Lemma keyed_rows_key (key : row -> option sort_value) (rs : list row) :
  Forall (fun kr => key (snd kr) = Some (fst kr)) (keyed_rows key rs).
Proof.
  unfold keyed_rows. induction rs as [|r rs IH]; simpl.
  - constructor.
  - destruct (key r) eqn:E; simpl; [constructor|]; assumption.
Qed.

Lemma sort_values_split_perm (key : row -> option sort_value) (rs : list row) :
  Permutation (map snd (keyed_rows key rs) ++ unkeyed_rows key rs) rs.
Proof.
  unfold keyed_rows, unkeyed_rows. induction rs as [|r rs IH]; simpl.
  - reflexivity.
  - destruct (key r); simpl.
    + now constructor.
    + rewrite <- Permutation_middle. now constructor.
Qed.

Lemma sort_values_perm (key : row -> option sort_value) (rs : list row) :
  Permutation (sort_values key rs) rs.
Proof.
  unfold sort_values.
  eapply Permutation_trans; [|apply sort_values_split_perm].
  apply Permutation_app_tail, Permutation_map, stable_sort_perm.
Qed.

Lemma sort_values_sorted (key : row -> option sort_value) (rs : list row) :
  StronglySorted (row_order key) (sort_values key rs).
Proof.
  unfold sort_values.
  set (leb := fun a b : sort_value * row => sort_value_leb (fst a) (fst b)).
  assert (Hk : Forall (fun kr => key (snd kr) = Some (fst kr))
                 (stable_sort leb (keyed_rows key rs))).
  { eapply Permutation_Forall; [symmetry; apply stable_sort_perm|].
    apply keyed_rows_key. }
  assert (Hu : Forall (fun r => key r = None) (unkeyed_rows key rs)).
  { unfold unkeyed_rows. apply Forall_forall. intros r Hr.
    apply filter_In in Hr. destruct Hr as [_ Hr]. now destruct (key r). }
  apply StronglySorted_app.
  - eapply StronglySorted_map with (P := fun kr => key (snd kr) = Some (fst kr));
      [| exact Hk |].
    + intros a b Pa Pb Hab. unfold row_order. rewrite Pa, Pb. exact Hab.
    + apply stable_sort_sorted; unfold leb; intros.
      * apply sort_value_leb_total.
      * eapply sort_value_leb_trans; eassumption.
  - clear Hk. induction Hu as [|r l Hr Hl IH]; constructor; [assumption|].
    eapply Forall_impl; [|exact Hl]. intros b Hb. unfold row_order.
    now rewrite Hr, Hb.
  - intros a b Ha Hb. rewrite Forall_forall in Hu.
    unfold row_order. rewrite (Hu b Hb). now destruct (key a).
Qed.

Lemma occurrences_zero (label : string) (cols : list string) :
  occurrences label cols = 0 <-> ~ In label cols.
Proof.
  unfold occurrences. induction cols as [|c cols IH]; simpl.
  - tauto.
  - destruct (String.eqb_spec label c) as [->|Hne]; simpl.
    + split; [discriminate | intros H; exfalso; apply H; now left].
    + rewrite IH. split; intros H; [intros [E|E]; [now subst | tauto] | tauto].
Qed.

(** [sort_group] either leaves the group as it is (no sort column) or returns
    it sorted. *)
Lemma sort_group_result (cols : list string) (label : string) (is_object : bool)
  (rs rs' : list row) :
  sort_group cols label is_object rs = Ok rs' ->
  Permutation rs' rs
  /\ (In label cols ->
      StronglySorted
        (row_order (fun r => sort_key_of is_object (cell_of cols label r))) rs')
  /\ (~ In label cols -> rs' = rs).
Proof.
  unfold sort_group. intros H.
  destruct (occurrences label cols) as [|[|n]] eqn:E.
  - injection H as <-. apply occurrences_zero in E.
    split; [reflexivity | split; [tauto | reflexivity]].
  - destruct (is_object && _); [discriminate|]. injection H as <-.
    assert (Hin : In label cols).
    { destruct (in_dec string_dec label cols) as [|Hn]; [assumption|].
      apply occurrences_zero in Hn. congruence. }
    split; [apply sort_values_perm | split; [|tauto]].
    intros _. apply sort_values_sorted.
  - discriminate.
Qed.

(** ** Sorting the brand groups *)

Lemma brand_key_leb_total (a b : bool * string) :
  brand_key_leb a b = true \/ brand_key_leb b a = true.
Proof.
  destruct a as [[|] s], b as [[|] t]; unfold brand_key_leb; simpl; auto;
    apply String.leb_total.
Qed.

Lemma brand_key_leb_trans (a b c : bool * string) :
  brand_key_leb a b = true -> brand_key_leb b c = true ->
  brand_key_leb a c = true.
Proof.
  destruct a as [[|] s], b as [[|] t], c as [[|] u]; unfold brand_key_leb; simpl;
    try discriminate; auto; apply string_leb_trans.
Qed.

Lemma sort_brands_perm (bs : list brand_group) : Permutation (sort_brands bs) bs.
Proof. apply stable_sort_perm. Qed.

Lemma brand_key_order (a b : brand_group) :
  brand_key_leb (brand_key (name a)) (brand_key (name b)) = true ->
  brand_order a b.
Proof.
  unfold brand_order, brand_key_leb.
  destruct (name a), (name b); simpl; auto. discriminate.
Qed.

Lemma sort_brands_sorted (bs : list brand_group) :
  StronglySorted brand_order (sort_brands bs).
Proof.
  unfold sort_brands.
  set (leb := fun a b : brand_group =>
                brand_key_leb (brand_key (name a)) (brand_key (name b))).
  assert (H : StronglySorted (fun a b => leb a b = true) (stable_sort leb bs)).
  { apply stable_sort_sorted; unfold leb; intros.
    - apply brand_key_leb_total.
    - eapply brand_key_leb_trans; eassumption. }
  induction H as [|a l Hs IH Ha]; constructor; [assumption|].
  eapply Forall_impl; [|exact Ha]. intros b. apply brand_key_order.
Qed.

(** ** The pipeline, stage by stage *)

Section PipelineFacts.

Variable float_repr : Q -> string.

Lemma grouped_inv (df : DataFrame) (cfg : settings) (df' : DataFrame)
  (r : roles) (gs : list (option string * list row)) :
  grouped float_repr df cfg = Ok (df', r, gs) ->
  resolve_roles df cfg = Ok r
  /\ transform float_repr df cfg r = Ok df'
  /\ sorted_groups float_repr df' (brand r) (sort_key cfg (product_desc r)) = Ok gs.
Proof.
  unfold grouped. intros H.
  destruct (resolve_roles df cfg) as [r0|e] eqn:E1; simpl in H; [|discriminate].
  destruct (transform float_repr df cfg r0) as [d|e] eqn:E2; simpl in H;
    [|discriminate].
  destruct (sorted_groups float_repr d (brand r0) _) as [g|e] eqn:E3;
    simpl in H; [|discriminate].
  injection H as <- <- <-. repeat split; assumption.
Qed.

Lemma brands_sorted_inv (df : DataFrame) (cfg : settings) (bs : list brand_group) :
  brands_sorted float_repr df cfg = Ok bs ->
  exists df' r gs,
    grouped float_repr df cfg = Ok (df', r, gs)
    /\ bs = sort_brands (map (entry_of df' r) gs).
Proof.
  unfold brands_sorted. intros H.
  destruct (grouped float_repr df cfg) as [[[df' r] gs]|e]; simpl in H;
    [|discriminate].
  injection H as <-. exists df', r, gs. split; reflexivity.
Qed.

Lemma sorted_groups_inv (df' : DataFrame) (b label : string)
  (gs : list (option string * list row)) :
  sorted_groups float_repr df' b label = Ok gs ->
  occurrences b (columns df') = 1
  /\ Forall2
       (fun g g' =>
          fst g' = group_name float_repr (fst g)
          /\ sort_group (columns df') label
               (dtype_is_object (column df' label)) (snd g) = Ok (snd g'))
       (groupby (cell_of (columns df') b) (data df')) gs.
Proof.
  unfold sorted_groups. intros H.
  destruct (occurrences b (columns df')) as [|[|n]]; try discriminate.
  split; [reflexivity|].
  apply mapM_Forall2 in H.
  eapply Forall2_impl; [|exact H].
  intros g g' Hg. simpl in Hg.
  destruct (sort_group _ _ _ _) as [rs|e]; simpl in Hg; [|discriminate].
  injection Hg as <-. auto.
Qed.

(** *** The transformations keep the rows and their index labels *)

Lemma discount_step_labels (d : option string) (df df1 : DataFrame) :
  discount_step d df = Ok df1 -> map fst (data df1) = map fst (data df).
Proof.
  unfold discount_step. intros H.
  destruct d as [dc|]; [|now injection H as <-].
  destruct (PyStr.truthy dc && in_columns dc (columns df));
    [|now injection H as <-].
  match type of H with
  | context [mapM ?f ?l] => destruct (mapM f l) as [rows|e] eqn:E
  end; simpl in H; [|discriminate].
  injection H as <-. simpl.
  apply mapM_Forall2 in E. induction E as [|r r' l l' Hr _ IH]; simpl.
  - reflexivity.
  - destruct (mapM_label _ _ _ _); simpl in Hr; [|discriminate].
    injection Hr as <-. simpl. now rewrite IH.
Qed.

Lemma assign_column_labels (label : string) (value : row -> cell) (df : DataFrame) :
  map fst (data (assign_column label value df)) = map fst (data df).
Proof.
  unfold assign_column.
  destruct (in_columns label (columns df)); simpl; rewrite map_map; reflexivity.
Qed.

Lemma image_step_labels (a : option string) (base : string) (df df1 : DataFrame) :
  image_step float_repr a base df = Ok df1 ->
  map fst (data df1) = map fst (data df).
Proof.
  unfold image_step. intros H.
  destruct a as [ac|]; [|now injection H as <-].
  destruct (PyStr.truthy ac && in_columns ac (columns df) && PyStr.truthy base);
    [|now injection H as <-].
  destruct (occurrences ac (columns df) =? 1)%nat; [|discriminate].
  injection H as <-. apply assign_column_labels.
Qed.

Lemma transform_labels (df : DataFrame) (cfg : settings) (r : roles)
  (df' : DataFrame) :
  transform float_repr df cfg r = Ok df' ->
  map fst (data df') = map fst (data df).
Proof.
  unfold transform. intros H.
  destruct (discount_step _ _) as [df1|e] eqn:E; simpl in H; [|discriminate].
  apply image_step_labels in H. apply discount_step_labels in E.
  rewrite H, E. unfold strip_brand. simpl. now rewrite map_map.
Qed.

(** *** The groups *)

Lemma sorted_groups_partition (df' : DataFrame) (b label : string)
  (gs : list (option string * list row)) :
  sorted_groups float_repr df' b label = Ok gs ->
  Permutation (List.concat (map snd gs)) (data df').
Proof.
  intros H. apply sorted_groups_inv in H. destruct H as [_ H].
  eapply Permutation_trans;
    [|apply (groupby_partition (cell_of (columns df') b) (data df'))].
  induction H as [|g g' l l' [_ Hg] _ IH]; simpl.
  - reflexivity.
  - apply Permutation_app; [|exact IH].
    now apply sort_group_result in Hg.
Qed.

Lemma to_products_length (cols : list string) (b : string) (rs : list row) :
  List.length (to_products cols b rs) = List.length rs.
Proof. unfold to_products. apply length_map. Qed.

Lemma product_count_concat (df' : DataFrame) (r : roles)
  (gs : list (option string * list row)) :
  list_sum (map (fun b => List.length (products b)) (map (entry_of df' r) gs))
  = List.length (List.concat (map snd gs)).
Proof.
  induction gs as [|g gs IH]; simpl.
  - reflexivity.
  - rewrite length_app, to_products_length, IH. reflexivity.
Qed.

Lemma list_sum_perm (l l' : list nat) :
  Permutation l l' -> list_sum l = list_sum l'.
Proof.
  induction 1; simpl; lia.
Qed.




Lemma Forall2_right {A B : Type} (R : A -> B -> Prop) (l : list A) (l' : list B)
  (b : B) :
  Forall2 R l l' -> In b l' -> exists a, In a l /\ R a b.
Proof.
  induction 1 as [|x y l l' Hxy _ IH]; simpl; intros Hb.
  - contradiction.
  - destruct Hb as [<-|Hb].
    + exists x. auto.
    + destruct (IH Hb) as (a & Ha & Hr). exists a. auto.
Qed.

Lemma column_object_of_text (df : DataFrame) (label : string) (r : row)
  (s : string) :
  In r (data df) -> cell_of (columns df) label r = Str s ->
  dtype_is_object (column df label) = true.
Proof.
  intros Hr Hs. unfold dtype_is_object, column.
  destruct (data df) as [|r0 rs] eqn:E; [reflexivity|].
  change (existsb is_object_cell (map (cell_of (columns df) label) (r0 :: rs)) = true).
  apply existsb_exists. exists (Str s). split; [|reflexivity].
  rewrite <- Hs. now apply in_map.
Qed.


Lemma find_all_false {A : Type} (f : A -> bool) (l : list A) :
  (forall x, In x l -> f x = false) -> find f l = None.
Proof.
  induction l as [|a l IH]; simpl; intros H.
  - reflexivity.
  - rewrite (H a (or_introl eq_refl)). apply IH. intros x Hx. apply H. now right.
Qed.

(** C8 -- When the Brand column is not found the run ends with the error
    that names the Brand column; when the product description column is not
    found and no column other than the Brand column has dtype [object], it
    ends with the error that names the product description column.  Either
    way the output file is never opened. *)
Theorem unresolved_required_column_is_fatal (df : DataFrame) (cfg : settings) :
  (find_col (columns df) (brand_col cfg) [] = None ->
   convert_excel_to_json float_repr df cfg
   = {| raised := Some (ValueError "Could not find a 'Brand' column.");
        written := None |})
  /\ (forall b,
        find_col (columns df) (brand_col cfg) [] = Some b ->
        PyStr.truthy b = true ->
        find_col (columns df) (product_desc_col cfg)
          ["Product"; "Product name"; "Description"] = None ->
        (forall c, In c (columns df) ->
                   c = b \/ dtype_is_object (column df c) = false) ->
        convert_excel_to_json float_repr df cfg
        = {| raised := Some (ValueError "Could not infer a product description column.");
             written := None |}).
Proof.
  split.
  - intros H. unfold convert_excel_to_json, brands_sorted, grouped, resolve_roles.
    rewrite H. reflexivity.
  - intros b Hb Ht Hp Hall.
    unfold convert_excel_to_json, brands_sorted, grouped, resolve_roles.
    rewrite Hb, Ht, Hp. simpl.
    assert (E : infer_product_desc df b = None).
    { unfold infer_product_desc. apply find_all_false. intros c Hc.
      destruct (Hall c Hc) as [->|Hd].
      - now rewrite String.eqb_refl.
      - rewrite Hd. apply andb_false_r. }
    rewrite E. reflexivity.
Qed.


(** *** Cells under a label, through the column operations *)

Lemma lookup_label_In (cols : list string) (cells : list cell) (k : string)
  (x : cell) :
  lookup_label cols cells k = Some x -> In k cols.
Proof.
  revert cells; induction cols as [|c cols IH]; intros [|y cells]; simpl;
    try discriminate.
  destruct (String.eqb_spec c k) as [->|Hne]; [now left|].
  intros H. right. eapply IH; eassumption.
Qed.

Lemma lookup_label_found (cols : list string) (cells : list cell) (k : string) :
  In k cols -> List.length cells = List.length cols ->
  exists x, lookup_label cols cells k = Some x.
Proof.
  revert cells; induction cols as [|c cols IH]; intros [|y cells]; simpl;
    try contradiction; try discriminate.
  intros Hin Hlen. destruct (String.eqb_spec c k) as [->|Hne].
  - eauto.
  - apply IH; [destruct Hin; [contradiction | assumption] | lia].
Qed.

Lemma map_label_length (cols : list string) (l : string) (f : cell -> cell)
  (cells : list cell) :
  List.length (map_label cols l f cells) = List.length cells.
Proof.
  revert cells; induction cols as [|c cols IH]; intros [|y cells]; simpl;
    try reflexivity. now rewrite IH.
Qed.

Lemma lookup_label_map_label (cols : list string) (l : string) (f : cell -> cell)
  (cells : list cell) (k : string) :
  lookup_label cols (map_label cols l f cells) k
  = if String.eqb k l then option_map f (lookup_label cols cells k)
    else lookup_label cols cells k.
Proof.
  revert cells; induction cols as [|c cols IH]; intros [|y cells]; simpl;
    try (destruct (String.eqb k l); reflexivity).
  destruct (String.eqb_spec c k) as [->|Hne].
  - destruct (String.eqb k l); reflexivity.
  - apply IH.
Qed.

Lemma mapM_label_lookup (cols : list string) (l : string)
  (f : cell -> result cell) (cells cells' : list cell) :
  mapM_label cols l f cells = Ok cells' ->
  List.length cells' = List.length cells
  /\ forall k,
       match lookup_label cols cells k with
       | Some x =>
           exists y, lookup_label cols cells' k = Some y
                     /\ (if String.eqb k l then f x = Ok y else y = x)
       | None => lookup_label cols cells' k = None
       end.
Proof.
  revert cells cells'; induction cols as [|c cols IH]; intros [|x cells] cells';
    simpl; try (intros [= <-]; split; [reflexivity | intros k; reflexivity]).
  intros H.
  destruct (if String.eqb c l then f x else Ok x) as [y|e] eqn:Ey; simpl in H;
    [|discriminate].
  destruct (mapM_label cols l f cells) as [ys|e] eqn:Eys; simpl in H;
    [|discriminate].
  injection H as <-. destruct (IH _ _ Eys) as [Hlen Hk].
  split; [simpl; now rewrite Hlen|].
  intros k. simpl. destruct (String.eqb_spec c k) as [->|Hne].
  - exists y. split; [reflexivity|].
    destruct (String.eqb k l); [assumption|].
    now injection Ey as <-.
  - apply Hk.
Qed.

Lemma lookup_label_rename_other (old new : string) (cols : list string)
  (cells : list cell) (k : string) :
  k <> new -> k <> old ->
  lookup_label (rename_label old new cols) cells k = lookup_label cols cells k.
Proof.
  intros Hn Ho. revert cells; induction cols as [|c cols IH]; intros [|y cells];
    simpl; try reflexivity.
  destruct (String.eqb_spec c old) as [->|Hco].
  - destruct (String.eqb_spec new k); [congruence|].
    destruct (String.eqb_spec old k); [congruence|]. apply IH.
  - destruct (String.eqb c k); [reflexivity | apply IH].
Qed.

Lemma lookup_label_rename_new (old new : string) (cols : list string)
  (cells : list cell) :
  (In new cols -> old = new) ->
  lookup_label (rename_label old new cols) cells new
  = lookup_label cols cells old.
Proof.
  revert cells; induction cols as [|c cols IH]; intros [|y cells] H;
    simpl; try reflexivity.
  destruct (String.eqb_spec c old) as [->|Hco].
  - now rewrite String.eqb_refl.
  - destruct (String.eqb_spec c new) as [->|Hcn].
    + exfalso. apply Hco. symmetry. apply H. now left.
    + apply IH. intros Hin. apply H. now right.
Qed.

Lemma lookup_label_snoc (cols : list string) (cells : list cell) (l : string)
  (v : cell) (k : string) :
  List.length cells = List.length cols ->
  lookup_label (cols ++ [l]) (cells ++ [v]) k
  = match lookup_label cols cells k with
    | Some x => Some x
    | None => if String.eqb l k then Some v else None
    end.
Proof.
  revert cells; induction cols as [|c cols IH]; intros [|y cells]; simpl;
    try discriminate.
  - reflexivity.
  - intros Hlen. destruct (String.eqb c k); [reflexivity|]. apply IH. lia.
Qed.

(** *** Records *)

Lemma dict_set_fresh (k : string) (v : pyval) (d : record) :
  ~ In k (map fst d) -> dict_set k v d = (d ++ [(k, v)])%list.
Proof.
  induction d as [|[k' v'] d IH]; simpl; intros H.
  - reflexivity.
  - destruct (String.eqb_spec k k') as [->|Hne]; [tauto|].
    rewrite IH; tauto.
Qed.

Lemma to_record_fold (fields : list (string * cell)) (d : record) :
  NoDup (map fst d ++ map fst fields) ->
  fold_left (fun d kv => dict_set (fst kv) (maybe_box_native (snd kv)) d) fields d
  = (d ++ map boxed fields)%list.
Proof.
  revert d; induction fields as [|[k x] fields IH]; intros d H; simpl.
  - now rewrite app_nil_r.
  - simpl in H. rewrite dict_set_fresh.
    + rewrite IH.
      * rewrite <- app_assoc. reflexivity.
      * rewrite map_app. simpl. rewrite <- app_assoc. exact H.
    + apply NoDup_remove_2 in H. intros Hin. apply H. apply in_or_app. now left.
Qed.

(** Distinct keys: the record is the list of boxed fields, in order. *)
Lemma to_record_nodup (fields : list (string * cell)) :
  NoDup (map fst fields) -> to_record fields = map boxed fields.
Proof.
  intros H. unfold to_record. now rewrite to_record_fold.
Qed.

Lemma drop_label_keys (b : string) (cols : list string) (cells : list cell) :
  NoDup cols -> NoDup (map fst (drop_label b cols cells)).
Proof.
  unfold drop_label. revert cells; induction cols as [|c cols IH];
    intros [|x cells] H; simpl; try constructor.
  inversion H as [|? ? Hc Hcols]; subst.
  destruct (negb (String.eqb c b)); simpl; [|now apply IH].
  constructor; [|now apply IH].
  intros Hin. apply Hc. apply in_map_iff in Hin.
  destruct Hin as ([k y] & <- & Hin). apply filter_In in Hin.
  destruct Hin as [Hin _]. now apply in_combine_l in Hin.
Qed.

Lemma dict_get_drop_label (b : string) (cols : list string) (cells : list cell)
  (k : string) :
  dict_get k (map boxed (drop_label b cols cells))
  = if String.eqb k b then None
    else option_map maybe_box_native (lookup_label cols cells k).
Proof.
  unfold drop_label. revert cells; induction cols as [|c cols IH];
    intros [|x cells]; simpl; try (destruct (String.eqb k b); reflexivity).
  destruct (String.eqb_spec c b) as [->|Hcb]; simpl.
  - rewrite IH. destruct (String.eqb_spec k b) as [Hkb|Hkb]; [reflexivity|].
    destruct (String.eqb_spec b k); [congruence | reflexivity].
  - rewrite (String.eqb_sym k c). destruct (String.eqb_spec c k) as [->|Hck].
    + destruct (String.eqb_spec k b); [congruence | reflexivity].
    + apply IH.
Qed.

(** The value a product record has under a key: nothing under the Brand
    label, the boxed cell of the row under any other. *)
Lemma product_field (b : string) (cols : list string) (cells : list cell)
  (k : string) :
  NoDup cols ->
  dict_get k (to_record (drop_label b cols cells))
  = if String.eqb k b then None
    else option_map maybe_box_native (lookup_label cols cells k).
Proof.
  intros H. rewrite to_record_nodup by now apply drop_label_keys.
  apply dict_get_drop_label.
Qed.

(** *** A row through lines 50-74 *)

Lemma discount_step_inv (d : option string) (df1 df2 : DataFrame) :
  discount_step d df1 = Ok df2 ->
  (df2 = df1
   /\ forall dc, d = Some dc ->
                 PyStr.truthy dc = false \/ ~ In dc (columns df1))
  \/ exists dc,
       d = Some dc /\ PyStr.truthy dc = true /\ In dc (columns df1)
       /\ columns df2 = rename_label dc "Discount" (columns df1)
       /\ Forall2 (fun r1 r2 =>
                     fst r2 = fst r1
                     /\ mapM_label (columns df1) dc normalize_discount (snd r1)
                        = Ok (snd r2))
            (data df1) (data df2).
Proof.
  unfold discount_step. intros H.
  destruct d as [dc|]; [|left; injection H as <-; split; [reflexivity | discriminate]].
  destruct (PyStr.truthy dc) eqn:Et; simpl in H.
  - destruct (in_columns dc (columns df1)) eqn:Ec.
    + right. exists dc. apply in_columns_In in Ec.
      match type of H with
      | context [mapM ?f ?l] => destruct (mapM f l) as [rows|e] eqn:E
      end; simpl in H; [|discriminate].
      injection H as <-. simpl. repeat split; try assumption.
      apply mapM_Forall2 in E.
      eapply Forall2_impl; [|exact E]. intros r1 r2 Hr. simpl in Hr.
      destruct (mapM_label _ _ _ _) as [cells|e]; simpl in Hr; [|discriminate].
      injection Hr as <-. auto.
    + left. injection H as <-. split; [reflexivity|].
      intros dc' [= <-]. right. intros Hin. apply in_columns_In in Hin. congruence.
  - left. injection H as <-. split; [reflexivity|].
    intros dc' [= <-]. now left.
Qed.

Lemma image_step_inv (a : option string) (base : string) (df2 df3 : DataFrame) :
  image_step float_repr a base df2 = Ok df3 ->
  df3 = df2
  \/ exists ac,
       a = Some ac /\ PyStr.truthy base = true
       /\ df3 = assign_column "Image"
                  (fun r => build_image float_repr base (cell_of (columns df2) ac r))
                  df2.
Proof.
  unfold image_step. intros H.
  destruct a as [ac|]; [|left; now injection H as <-].
  destruct (PyStr.truthy ac && in_columns ac (columns df2)); simpl in H;
    [|left; now injection H as <-].
  destruct (PyStr.truthy base) eqn:Eb; simpl in H; [|left; now injection H as <-].
  destruct (occurrences ac (columns df2) =? 1)%nat; [|discriminate].
  right. exists ac. injection H as <-. auto.
Qed.

(** Where a row of the transformed frame comes from: a row of the input, its
    Brand cell stripped, its Discount cell normalised under the renamed
    header when that step ran, and the Image cell put in place or added at
    the end when that step ran. *)
Lemma transform_chain (df : DataFrame) (cfg : settings) (r : roles)
  (df' : DataFrame) (r3 : row) :
  transform float_repr df cfg r = Ok df' -> In r3 (data df') ->
  exists x cols2 cells2,
    In x (data df) /\ fst r3 = fst x
    /\ ((cols2 = columns df
         /\ cells2 = map_label (columns df) (brand r) (stripped float_repr) (snd x)
         /\ forall dc, discount r = Some dc ->
                       PyStr.truthy dc = false \/ ~ In dc (columns df))
        \/ exists dc,
             discount r = Some dc /\ PyStr.truthy dc = true
             /\ In dc (columns df)
             /\ cols2 = rename_label dc "Discount" (columns df)
             /\ mapM_label (columns df) dc normalize_discount
                  (map_label (columns df) (brand r) (stripped float_repr) (snd x))
                = Ok cells2)
    /\ ((columns df' = cols2 /\ snd r3 = cells2)
        \/ exists ac v,
             article_code r = Some ac
             /\ PyStr.truthy (image_base_url cfg) = true
             /\ ((In "Image" cols2 /\ columns df' = cols2
                  /\ snd r3 = map_label cols2 "Image" (fun _ => v) cells2)
                 \/ (~ In "Image" cols2
                     /\ columns df' = (cols2 ++ ["Image"])%list
                     /\ snd r3 = (cells2 ++ [v])%list))).
Proof.
  unfold transform. intros H Hr3.
  destruct (discount_step _ _) as [df2|e] eqn:E; simpl in H; [|discriminate].
  assert (Hr2 : exists r2, In r2 (data df2) /\ fst r3 = fst r2
            /\ ((columns df' = columns df2 /\ snd r3 = snd r2)
                \/ exists ac v,
                     article_code r = Some ac
                     /\ PyStr.truthy (image_base_url cfg) = true
                     /\ ((In "Image" (columns df2) /\ columns df' = columns df2
                          /\ snd r3 = map_label (columns df2) "Image"
                                        (fun _ => v) (snd r2))
                         \/ (~ In "Image" (columns df2)
                             /\ columns df' = (columns df2 ++ ["Image"])%list
                             /\ snd r3 = (snd r2 ++ [v])%list)))).
  { apply image_step_inv in H. destruct H as [->|(ac & Ha & Hb & ->)].
    - exists r3. auto.
    - unfold assign_column in Hr3 |- *.
      destruct (in_columns "Image" (columns df2)) eqn:Ei; simpl in Hr3 |- *;
        apply in_map_iff in Hr3; destruct Hr3 as (r2 & <- & Hr2);
        exists r2; (split; [assumption|]); (split; [reflexivity|]); right;
        eexists ac, _; (split; [assumption|]); (split; [assumption|]).
      + left. apply in_columns_In in Ei. simpl. auto.
      + right. simpl. repeat split.
        intros Hin. apply in_columns_In in Hin. congruence. }
  destruct Hr2 as (r2 & Hr2 & Hf2 & HC).
  apply discount_step_inv in E.
  destruct E as [[-> Hd] | (dc & Hdc & Ht & Hin & Hcols & Hrows)].
  - simpl in Hr2. apply in_map_iff in Hr2. destruct Hr2 as (x & <- & Hx).
    exists x, (columns df), (map_label (columns df) (brand r) (stripped float_repr) (snd x)).
    simpl in *. repeat split; auto.
  - destruct (Forall2_right _ _ _ _ Hrows Hr2) as (r1 & Hr1 & Hf1 & Hm).
    simpl in Hr1. apply in_map_iff in Hr1. destruct Hr1 as (x & <- & Hx).
    exists x, (columns df2), (snd r2). simpl in *.
    split; [assumption|]. split; [congruence|]. split; [|assumption].
    right. exists dc. repeat split; auto.
Qed.

Lemma resolve_roles_inv (df : DataFrame) (cfg : settings) (r : roles) :
  resolve_roles df cfg = Ok r ->
  In (brand r) (columns df)
  /\ (forall dc, discount r = Some dc -> In dc (columns df))
  /\ (forall ac, article_code r = Some ac -> In ac (columns df)).
Proof.
  unfold resolve_roles. intros H.
  destruct (find_col (columns df) (brand_col cfg) []) as [b|] eqn:Eb;
    [|discriminate].
  destruct (negb (PyStr.truthy b)); [discriminate|].
  match type of H with
  | context [match ?p with Some _ => _ | None => _ end] =>
      destruct p as [pd|]; [|discriminate]
  end.
  destruct (negb (PyStr.truthy pd)); [discriminate|].
  injection H as <-. simpl. split; [|split].
  - eapply find_col_In; eassumption.
  - intros dc. apply find_col_In.
  - intros ac. apply find_col_In.
Qed.

Lemma truthy_nonempty (s : string) : s <> "" -> PyStr.truthy s = true.
Proof. destruct s; [congruence | reflexivity]. Qed.

(** every product of the output is the record of a row of the transformed
    frame *)
Lemma output_record_row (df : DataFrame) (cfg : settings) (bs : list brand_group)
  (b : brand_group) (p : record) :
  brands_sorted float_repr df cfg = Ok bs -> In b bs -> In p (products b) ->
  exists df' r r3,
    resolve_roles df cfg = Ok r
    /\ transform float_repr df cfg r = Ok df'
    /\ In r3 (data df')
    /\ p = to_record (drop_label (brand r) (columns df') (snd r3)).
Proof.
  intros H Hb Hp. apply brands_sorted_inv in H.
  destruct H as (df' & r & gs & Hg & ->).
  apply grouped_inv in Hg. destruct Hg as (Hr & Ht & Hs).
  apply (Permutation_in _ (sort_brands_perm _)) in Hb.
  apply in_map_iff in Hb. destruct Hb as (g & <- & Hg).
  simpl in Hp. unfold to_products in Hp. apply in_map_iff in Hp.
  destruct Hp as (r3 & <- & Hr3).
  exists df', r, r3. repeat split; try assumption.
  apply (Permutation_in _ (sorted_groups_partition _ _ _ _ Hs)).
  apply in_concat. exists (snd g). split; [now apply in_map | assumption].
Qed.

Lemma rename_label_NoDup (old new : string) (cols : list string) :
  NoDup cols -> (In new cols -> old = new) ->
  NoDup (rename_label old new cols).
Proof.
  induction cols as [|c cols IH]; simpl; intros Hnd Hnew.
  - constructor.
  - inversion Hnd as [|? ? Hc Hcols]; subst.
    constructor; [|apply IH; auto].
    intros Hin. apply in_map_iff in Hin. destruct Hin as (c' & Hc' & Hin).
    destruct (String.eqb_spec c old) as [Hco|Hco];
      destruct (String.eqb_spec c' old) as [Hc'o|Hc'o].
    + apply Hc. congruence.
    + assert (old = new) by (apply Hnew; right; congruence). congruence.
    + assert (old = new) by (apply Hnew; left; congruence). congruence.
    + apply Hc. congruence.
Qed.

Lemma rename_label_gone (old new : string) (cols : list string) :
  old <> new -> ~ In old (rename_label old new cols).
Proof.
  intros Hne Hin. unfold rename_label in Hin. apply in_map_iff in Hin.
  destruct Hin as (c & Hc & _).
  destruct (String.eqb_spec c old); congruence.
Qed.

Lemma rename_label_In (old new : string) (cols : list string) (k : string) :
  In k (rename_label old new cols) ->
  (In k cols /\ k <> old) \/ (k = new /\ In old cols).
Proof.
  unfold rename_label. intros Hin. apply in_map_iff in Hin.
  destruct Hin as (c & Hc & Hin).
  destruct (String.eqb_spec c old) as [Hco|Hco].
  - right. split; congruence.
  - left. split; congruence.
Qed.

Lemma drop_label_fst (b : string) (cols : list string) (cells : list cell) :
  List.length cells = List.length cols ->
  map fst (drop_label b cols cells)
  = filter (fun c => negb (String.eqb c b)) cols.
Proof.
  unfold drop_label. revert cells; induction cols as [|c cols IH];
    intros [|x cells]; simpl; try discriminate; try reflexivity.
  intros Hlen. destruct (negb (String.eqb c b)); simpl;
    rewrite IH by lia; reflexivity.
Qed.

(** the Discount step, when it runs, on the cells under each label *)
Lemma discount_stage (cols : list string) (dc : string) (cells1 cells2 : list cell) :
  NoDup cols -> (In "Discount" cols -> dc = "Discount") ->
  List.length cells1 = List.length cols ->
  mapM_label cols dc normalize_discount cells1 = Ok cells2 ->
  let cols2 := rename_label dc "Discount" cols in
  NoDup cols2
  /\ List.length cells2 = List.length cols2
  /\ (forall k, k <> "Discount" -> k <> dc ->
                lookup_label cols2 cells2 k = lookup_label cols cells1 k)
  /\ (forall c0, lookup_label cols cells1 dc = Some c0 ->
                 exists y, lookup_label cols2 cells2 "Discount" = Some y
                           /\ normalize_discount c0 = Ok y)
  /\ (dc <> "Discount" -> lookup_label cols2 cells2 dc = None).
Proof.
  intros Hnd Hcoll Hlen Hm cols2.
  destruct (mapM_label_lookup _ _ _ _ _ Hm) as [Hl Hk].
  split; [now apply rename_label_NoDup|].
  split; [unfold cols2, rename_label; rewrite length_map; congruence|].
  split; [|split].
  - intros k Hk1 Hk2. unfold cols2.
    rewrite lookup_label_rename_other by assumption.
    specialize (Hk k). destruct (lookup_label cols cells1 k) as [x|].
    + destruct Hk as (y & -> & Hy).
      destruct (String.eqb_spec k dc); [contradiction | now subst].
    + assumption.
  - intros c0 Hc0. unfold cols2. rewrite lookup_label_rename_new by assumption.
    specialize (Hk dc). rewrite Hc0, String.eqb_refl in Hk. exact Hk.
  - intros Hne. destruct (lookup_label cols2 cells2 dc) as [y|] eqn:E;
      [|reflexivity].
    apply lookup_label_In in E. now apply rename_label_gone in E.
Qed.

(** the Image step on the cells under each label *)
Lemma image_stage (r : roles) (cfg : settings) (cols2 cols3 : list string)
  (cells2 cells3 : list cell) :
  NoDup cols2 -> List.length cells2 = List.length cols2 ->
  ((cols3 = cols2 /\ cells3 = cells2)
   \/ exists ac v,
        article_code r = Some ac
        /\ PyStr.truthy (image_base_url cfg) = true
        /\ ((In "Image" cols2 /\ cols3 = cols2
             /\ cells3 = map_label cols2 "Image" (fun _ => v) cells2)
            \/ (~ In "Image" cols2
                /\ cols3 = (cols2 ++ ["Image"])%list
                /\ cells3 = (cells2 ++ [v])%list))) ->
  NoDup cols3
  /\ List.length cells3 = List.length cols3
  /\ (forall k, k <> "Image" ->
                lookup_label cols3 cells3 k = lookup_label cols2 cells2 k)
  /\ (cols3 = cols2
      \/ (cols3 = (cols2 ++ ["Image"])%list /\ ~ In "Image" cols2
          /\ article_code r <> None /\ image_base_url cfg <> "")).
Proof.
  intros Hnd Hlen [[-> ->] | (ac & v & Ha & Hb & [(Hin & -> & ->) | (Hn & -> & ->)])].
  - repeat split; auto.
  - split; [assumption|]. split; [now rewrite map_label_length|].
    split; [|now left].
    intros k Hk. rewrite lookup_label_map_label.
    destruct (String.eqb_spec k "Image"); [contradiction | reflexivity].
  - split.
    { apply NoDup_app; [assumption | repeat constructor; simpl; tauto |].
      intros a Ha1 [<-|[]]. contradiction. }
    split; [rewrite !length_app; simpl; lia|].
    split.
    + intros k Hk. rewrite lookup_label_snoc by assumption.
      destruct (lookup_label cols2 cells2 k); [reflexivity|].
      destruct (String.eqb_spec "Image" k); [congruence | reflexivity].
    + right. repeat split; try assumption.
      * congruence.
      * intros E. rewrite E in Hb. discriminate.
Qed.



(** ** Image addresses *)

Lemma endswith_any_spec (s : string) (suffixes : list string) :
  PyStr.endswith_any s suffixes = true
  <-> exists ext stem, In ext suffixes /\ s = stem ++ ext.
Proof.
  unfold PyStr.endswith_any. rewrite existsb_exists. split.
  - intros (ext & Hin & He). apply endswith_spec in He.
    destruct He as [stem ->]. eauto.
  - intros (ext & stem & Hin & ->). exists ext. split; [assumption|].
    apply endswith_spec. eauto.
Qed.


End PipelineFacts.

(** * The properties on sample tables *)

Lemma well_formed_catalogue : well_formed catalogue.
Proof.
  unfold well_formed, catalogue; simpl. split; [|split].
  - repeat constructor; simpl; intuition discriminate.
  - intuition discriminate.
  - repeat constructor.
Defined.

(** the specification's example: the header [discount %] is found for the
    canonical name [Discount %] *)
Example find_col_case_variant :
  find_col ["Brand"; "discount %"] "Discount %"
    ["Discount%"; "Discount"; "DISCOUNT %"; "discount %"]
  = Some "discount %".
Proof. reflexivity. Qed.

(** [sort_products_by] names the sort column as it is: it does not go
    through [find_col].  Named [products] on a table whose header is
    [Products], it names no column, and the groups keep the order of the
    frame; by default the zeta group is sorted by product description. *)
Example sort_setting_is_taken_as_it_is :
  find_col (columns catalogue) "products" [] = Some "Products"
  /\ group_labels (grouped no_floats catalogue settings_sort_by_products)
     = [[1]; [0; 2]]
  /\ group_labels (grouped no_floats catalogue default_settings)
     = [[1]; [2; 0]].
Proof. repeat split. Qed.

(** the specification's example of the order of the groups *)
Example sort_brands_example :
  map name
    (sort_brands [ {| name := Some "zeta"; products := [] |};
                   {| name := Some "Alpha"; products := [] |};
                   {| name := None; products := [] |} ])
  = [Some "Alpha"; Some "zeta"; None].
Proof. reflexivity. Qed.

(** the specification's examples of discount values *)
Example discount_value_examples :
  discount_value (Float (-126 # 10)) = VInt 13
  /\ discount_value (Str "n/a") = VNone
  /\ discount_value (Int 7) = VInt 7.
Proof. repeat split. Qed.

(** C1 -- Line 50 turns the missing marker of an empty Brand cell into the
    text [nan], and no missing Brand cell gets the name [None] on line 92.
    On a table with a row whose Brand cell is empty the row ends up in a
    group named [nan], written as the string [nan] and not as [null]. *)
Theorem missing_brand_is_named_nan (float_repr : Q -> string) :
  stripped float_repr NaN = Str "nan"
  /\ (forall c, isna c = true ->
                group_name float_repr (stripped float_repr c) <> None)
  /\ brands_sorted float_repr sheet_missing_brand default_settings
     = Ok [ {| name := Some "nan";
               products := [ [("Products", VStr "Widget")] ] |} ]
  /\ convert_excel_to_json float_repr sheet_missing_brand default_settings
     = {| raised := None;
          written := Some (text [
            "{";
            "  " ++ Json.encode_string "brands" ++ ": [";
            "    {";
            "      " ++ Json.encode_string "name" ++ ": " ++ Json.encode_string "nan" ++ ",";
            "      " ++ Json.encode_string "products" ++ ": [";
            "        {";
            "          " ++ Json.encode_string "Products" ++ ": " ++ Json.encode_string "Widget";
            "        }";
            "      ]";
            "    }";
            "  ]";
            "}" ]) |}.
Proof.
  split; [reflexivity|]. split; [|split; reflexivity].
  intros c _. discriminate.
Qed.

(** C9 -- On a table with an empty product description cell the run
    succeeds, and the file has the token [NaN] for that cell, not [null].
    The text is indented by two blanks a level and the bytes of [é] are
    written as they are. *)
Theorem missing_cell_is_written_NaN (float_repr : Q -> string) :
  brands_sorted float_repr sheet_missing_cell default_settings
  = Ok [ {| name := Some "Café";
            products := [ [("Products", VStr "Widget")];
                          [("Products", VNaN)] ] |} ]
  /\ convert_excel_to_json float_repr sheet_missing_cell default_settings
     = {| raised := None;
          written := Some (text [
            "{";
            "  " ++ Json.encode_string "brands" ++ ": [";
            "    {";
            "      " ++ Json.encode_string "name" ++ ": " ++ Json.encode_string "Café" ++ ",";
            "      " ++ Json.encode_string "products" ++ ": [";
            "        {";
            "          " ++ Json.encode_string "Products" ++ ": " ++ Json.encode_string "Widget";
            "        },";
            "        {";
            "          " ++ Json.encode_string "Products" ++ ": NaN";
            "        }";
            "      ]";
            "    }";
            "  ]";
            "}" ]) |}
  /\ encode_val float_repr VNaN <> encode_val float_repr VNone.
Proof. repeat split. discriminate. Qed.








(** The two fatal errors, on a table without a Brand column and on one whose
    only other column is numeric. *)
Lemma unresolved_required_column_witness :
  convert_excel_to_json no_floats sheet_no_brand default_settings
  = {| raised := Some (ValueError "Could not find a 'Brand' column.");
       written := None |}
  /\ convert_excel_to_json no_floats sheet_numbers_only default_settings
     = {| raised := Some (ValueError "Could not infer a product description column.");
          written := None |}.
Proof.
  split.
  - apply (proj1 (unresolved_required_column_is_fatal no_floats sheet_no_brand
                    default_settings)).
    reflexivity.
  - apply (proj2 (unresolved_required_column_is_fatal no_floats sheet_numbers_only
                    default_settings) "Brand").
    + reflexivity.
    + reflexivity.
    + reflexivity.
    + simpl. intros c [<-|[<-|[]]]; [now left | now right].
Defined.


(** * Further properties of the code *)

(** ** Column resolution *)

Lemma loose_eq_refl (c : string) : loose_eq c c = true.
Proof. unfold loose_eq. apply String.eqb_refl. Qed.

Lemma first_loose_none (cols : list string) (name : string) :
  first_loose cols name = None
  <-> existsb (fun c => loose_eq c name) cols = false.
Proof.
  unfold first_loose. induction cols as [|c cols IH]; simpl.
  - tauto.
  - destruct (loose_eq c name); simpl; [split; discriminate | exact IH].
Qed.

Lemma run_none_of_no_match (cols : list string) (name : string) :
  existsb (fun c => loose_eq c name) cols = false ->
  ResolveSpec.run cols (ResolveSpec.Exact name) = None
  /\ ResolveSpec.run cols (ResolveSpec.Loose name) = None.
Proof.
  intros H. split; simpl.
  - destruct (in_columns name cols) eqn:E; [|reflexivity].
    apply in_columns_In in E.
    assert (K : existsb (fun c => loose_eq c name) cols = true).
    { apply existsb_exists. exists name. split; [assumption | apply loose_eq_refl]. }
    congruence.
  - now apply first_loose_none.
Qed.

Lemma first_hit_none (cols : list string) (steps : list ResolveSpec.step) :
  Forall (fun s => ResolveSpec.run cols s = None) steps ->
  ResolveSpec.first_hit cols steps = None.
Proof.
  induction 1 as [|s steps Hs _ IH]; simpl; [reflexivity|]. now rewrite Hs.
Qed.

Lemma search_order_steps (t : string) (fbs : list string) (s : ResolveSpec.step) :
  In s (ResolveSpec.search_order t fbs) ->
  exists name, In name (t :: fbs)
               /\ (s = ResolveSpec.Exact name \/ s = ResolveSpec.Loose name).
Proof.
  unfold ResolveSpec.search_order. intros H. apply in_flat_map in H.
  destruct H as (name & Hn & [<-|[<-|[]]]); eauto.
Qed.


(** ** Trimming *)

Lemma lstrip_starts_clean (s : string) : starts_clean (PyStr.lstrip s) = true.
Proof.
  induction s as [|c s IH]; simpl; [reflexivity|].
  destruct (PyStr.isspace c) eqn:E; [exact IH|]. simpl. now rewrite E.
Qed.

Lemma lstrip_clean (s : string) : starts_clean s = true -> PyStr.lstrip s = s.
Proof.
  destruct s as [|c s]; simpl; [reflexivity|].
  destruct (PyStr.isspace c); [discriminate | reflexivity].
Qed.

Lemma rstrip_starts_clean (s : string) :
  starts_clean s = true -> starts_clean (PyStr.rstrip s) = true.
Proof.
  destruct s as [|c s]; simpl; [reflexivity|]. intros H.
  destruct (PyStr.rstrip s); simpl.
  - destruct (PyStr.isspace c) eqn:E; [discriminate | simpl; now rewrite E].
  - assumption.
Qed.

Lemma rstrip_ends_clean (s : string) : ends_clean (PyStr.rstrip s) = true.
Proof.
  induction s as [|c s IH]; simpl; [reflexivity|].
  destruct (PyStr.rstrip s) as [|c' t] eqn:E.
  - destruct (PyStr.isspace c) eqn:Ec; simpl; [reflexivity | now rewrite Ec].
  - exact IH.
Qed.

Lemma rstrip_clean (s : string) : ends_clean s = true -> PyStr.rstrip s = s.
Proof.
  induction s as [|c s IH]; simpl; [reflexivity|].
  destruct s as [|c' s'].
  - simpl. destruct (PyStr.isspace c); [discriminate | reflexivity].
  - intros H. rewrite (IH H). reflexivity.
Qed.

(** what [strip] returns has no blank at either end, and stripping it again
    changes nothing *)
Lemma strip_clean (s : string) :
  starts_clean (PyStr.strip s) = true
  /\ ends_clean (PyStr.strip s) = true
  /\ PyStr.strip (PyStr.strip s) = PyStr.strip s.
Proof.
  unfold PyStr.strip.
  pose proof (rstrip_starts_clean _ (lstrip_starts_clean s)) as Hs.
  pose proof (rstrip_ends_clean (PyStr.lstrip s)) as He.
  repeat split; try assumption.
  rewrite (lstrip_clean _ Hs). now apply rstrip_clean.
Qed.

(** ** Discount values *)

Lemma round_half_even_integer (n : Z) :
  Numeric.round_half_even (inject_Z n) = n.
Proof.
  unfold Numeric.round_half_even, inject_Z. cbn [Qnum Qden].
  rewrite Z.div_1_r, Z.mod_1_r. reflexivity.
Qed.

Lemma round_half_even_nearest (q : Q) :
  (Qabs (q - inject_Z (Numeric.round_half_even q)) <= 1 # 2)%Q.
Proof.
  destruct q as [n d]. unfold Numeric.round_half_even. cbn [Qnum Qden].
  set (D := Zpos d).
  assert (HD : (0 < D)%Z) by (subst D; lia).
  pose proof (Z.div_mod n D ltac:(lia)) as Hn.
  pose proof (Z.mod_pos_bound n D HD) as Hm.
  set (f := (n / D)%Z) in *. set (m := (n mod D)%Z) in *.
  assert (Hgoal : forall r : Z, (2 * Z.abs (n - r * D) <= D)%Z ->
            (Qabs ((n # d) - inject_Z r) <= 1 # 2)%Q).
  { intros r Hr. unfold Qle, Qabs, Qminus, Qplus, Qopp, inject_Z.
    cbn [Qnum Qden]. fold D.
    replace (n * 1 + - r * D)%Z with (n - r * D)%Z by lia.
    replace (Zpos (d * 1)) with D by (subst D; lia). lia. }
  apply Hgoal.
  destruct (Z.compare_spec (2 * m) D) as [E|E|E];
    [destruct (Z.even f)|..]; nia.
Qed.


Lemma parse_decimal_unsigned (s : string) :
  unsigned_start s = true ->
  Numeric.sign (Numeric.skip_blanks s) = (false, s).
Proof.
  destruct s as [|c s]; simpl; [discriminate|].
  destruct (Numeric.isblank c); simpl; [discriminate|].
  destruct (Ascii.eqb c "-"); simpl; [discriminate|].
  destruct (Ascii.eqb c "+"); simpl; [discriminate | reflexivity].
Qed.

Lemma parse_decimal_signed (s : string) :
  unsigned_start s = true ->
  Numeric.parse_decimal (String "+" s) = Numeric.parse_decimal s
  /\ Numeric.parse_decimal (String "-" s)
     = option_map Qopp (Numeric.parse_decimal s).
Proof.
  intros H. unfold Numeric.parse_decimal.
  rewrite (parse_decimal_unsigned s H).
  change (Numeric.sign (Numeric.skip_blanks (String "+" s))) with (false, s).
  change (Numeric.sign (Numeric.skip_blanks (String "-" s))) with (true, s).
  split; [reflexivity|].
  destruct (Numeric.digits s) as [ip s2].
  destruct (match s2 with
            | EmptyString => ([], s2)
            | String c s' => if Ascii.eqb c "." then Numeric.digits s' else ([], s2)
            end) as [fp s3].
  destruct (ip ++ fp)%list as [|d0 ds]; [reflexivity|].
  destruct (Numeric.exponent s3) as [e s4].
  destruct (Numeric.skip_blanks s4); [|reflexivity].
  unfold option_map. f_equal. rewrite <- Qred_opp. f_equal.
  unfold Qmult, Qopp, inject_Z. cbn [Qnum Qden]. now rewrite Z.mul_opp_l.
Qed.

Lemma normalize_discount_opp (c c' : cell) (q : Q) :
  Numeric.to_numeric c = Numeric.Finite q ->
  Numeric.to_numeric c' = Numeric.Finite (- q) ->
  normalize_discount c' = normalize_discount c.
Proof.
  intros H H'. unfold normalize_discount. rewrite H, H'. simpl.
  destruct q as [n d]. unfold Qopp. cbn [Qnum Qden].
  rewrite round_half_even_opp, !Z.div_1_r, !Z.abs_opp. reflexivity.
Qed.


(** ** Image addresses *)

Lemma lower_app (a b : string) :
  PyStr.lower (a ++ b) = PyStr.lower a ++ PyStr.lower b.
Proof. induction a as [|c a IH]; simpl; [reflexivity | now rewrite IH]. Qed.

Lemma starts_clean_app (a b : string) :
  a <> "" -> starts_clean (a ++ b) = starts_clean a.
Proof. destruct a; [congruence | reflexivity]. Qed.

Lemma ends_clean_app (a b : string) :
  b <> "" -> ends_clean (a ++ b) = ends_clean b.
Proof.
  intros Hb. induction a as [|c a IH]; simpl; [reflexivity|].
  destruct (a ++ b) eqn:E; [|exact IH].
  destruct a; simpl in E; [congruence | discriminate].
Qed.

Section FurtherFacts.

Variable float_repr : Q -> string.


(** ** Records *)

Lemma dict_set_keys (k : string) (v : pyval) (d : record) :
  map fst (dict_set k v d)
  = if in_columns k (map fst d) then map fst d else (map fst d ++ [k])%list.
Proof.
  unfold in_columns. induction d as [|[k' v'] d IH]; simpl; [reflexivity|].
  destruct (String.eqb k k'); simpl; [reflexivity|].
  rewrite IH. now destruct (existsb (String.eqb k) (map fst d)).
Qed.

Lemma dict_set_NoDup (k : string) (v : pyval) (d : record) :
  NoDup (map fst d) -> NoDup (map fst (dict_set k v d)).
Proof.
  intros H. rewrite dict_set_keys.
  destruct (in_columns k (map fst d)) eqn:E; [assumption|].
  apply NoDup_app; [assumption | repeat constructor; simpl; tauto |].
  intros a Ha [<-|[]]. apply in_columns_In in Ha. congruence.
Qed.

Lemma to_record_keys (fields : list (string * cell)) (d : record) :
  NoDup (map fst d) ->
  let d' := fold_left
              (fun d kv => dict_set (fst kv) (maybe_box_native (snd kv)) d)
              fields d in
  NoDup (map fst d')
  /\ forall k, In k (map fst d') -> In k (map fst d) \/ In k (map fst fields).
Proof.
  revert d; induction fields as [|[k x] fields IH]; intros d Hd; simpl.
  - auto.
  - destruct (IH _ (dict_set_NoDup k (maybe_box_native x) d Hd)) as [Hn Hk].
    split; [exact Hn|].
    intros k' Hk'. destruct (Hk k' Hk') as [H|H]; [|auto].
    rewrite dict_set_keys in H.
    destruct (in_columns k (map fst d)); [auto|].
    apply in_app_or in H. destruct H as [H|[<-|[]]]; auto.
Qed.

Lemma dict_get_absent (k : string) (d : record) :
  ~ In k (map fst d) -> dict_get k d = None.
Proof.
  induction d as [|[k' v'] d IH]; simpl; intros H; [reflexivity|].
  destruct (String.eqb_spec k k') as [->|Hne]; [tauto|]. apply IH. tauto.
Qed.

Lemma drop_label_key (b : string) (cols : list string) (cells : list cell)
  (k : string) :
  In k (map fst (drop_label b cols cells)) -> In k cols /\ k <> b.
Proof.
  unfold drop_label. intros H. apply in_map_iff in H.
  destruct H as ([k' x] & <- & H). apply filter_In in H. destruct H as [Hin Hb].
  simpl in *. split; [now apply in_combine_l in Hin|].
  intros ->. now rewrite String.eqb_refl in Hb.
Qed.

(** the headers of the transformed frame: those of the table, Discount, Image *)
Lemma transform_columns (df : DataFrame) (cfg : settings) (r : roles)
  (df' : DataFrame) (r3 : row) (k : string) :
  transform float_repr df cfg r = Ok df' -> In r3 (data df') ->
  In k (columns df') ->
  In k (columns df) \/ k = "Discount" \/ k = "Image".
Proof.
  intros Ht Hr3 Hk.
  destruct (transform_chain _ _ _ _ _ _ Ht Hr3)
    as (x & cols2 & cells2 & _ & _ & HB & HC).
  assert (H2 : In k cols2 -> In k (columns df) \/ k = "Discount" \/ k = "Image").
  { destruct HB as [(-> & _) | (dc & _ & _ & _ & -> & _)]; [auto|].
    intros H. apply rename_label_In in H. tauto. }
  destruct HC as [[E _] | (ac & v & _ & _ & [(_ & E & _) | (_ & E & _)])];
    rewrite E in Hk; auto.
  apply in_app_or in Hk. destruct Hk as [Hk|[<-|[]]]; auto.
Qed.

(** X5 -- In every product record of the output the field names are
    pairwise different, there is no field under the Brand header, and every
    field is named after a column of the table, or is Discount or Image. *)
Theorem record_fields_sound (df : DataFrame) (cfg : settings) (r : roles)
  (bs : list brand_group) :
  resolve_roles df cfg = Ok r ->
  brands_sorted float_repr df cfg = Ok bs ->
  Forall (fun b =>
            Forall (fun p =>
                      NoDup (map fst p)
                      /\ dict_get (brand r) p = None
                      /\ forall k, In k (map fst p) ->
                                   In k (columns df) \/ k = "Discount"
                                   \/ k = "Image")
              (products b)) bs.
Proof.
  intros Hr Hbs. apply Forall_forall. intros b Hb.
  apply Forall_forall. intros p Hp.
  destruct (output_record_row _ _ _ _ _ _ Hbs Hb Hp)
    as (df' & r' & r3 & Hr' & Ht & Hr3 & ->).
  assert (r' = r) by congruence. subst r'.
  destruct (to_record_keys (drop_label (brand r) (columns df') (snd r3)) [])
    as [Hn Hk]; [constructor|].
  fold (to_record (drop_label (brand r) (columns df') (snd r3))) in Hn, Hk.
  split; [exact Hn|]. split.
  - apply dict_get_absent. intros Hin.
    destruct (Hk _ Hin) as [[]|H]. apply drop_label_key in H. tauto.
  - intros k Hin. destruct (Hk _ Hin) as [[]|H]. apply drop_label_key in H.
    eapply transform_columns; try eassumption. tauto.
Qed.

(** ** Groups *)

Lemma add_to_groups_nonempty (k : cell) (r : row) (gs : list (cell * list row)) :
  Forall (fun g => snd g <> []) gs ->
  Forall (fun g => snd g <> []) (add_to_groups k r gs).
Proof.
  induction 1 as [|[k' rs] gs Hg Hgs IH]; simpl.
  - repeat constructor. discriminate.
  - destruct (group_key_eqb k k').
    + constructor; [|assumption]. simpl. now destruct rs.
    + destruct (group_key_leb k k').
      * constructor; [discriminate|]. now constructor.
      * now constructor.
Qed.

Lemma groupby_nonempty (key : row -> cell) (rs : list row) :
  Forall (fun g => snd g <> []) (groupby key rs).
Proof.
  unfold groupby.
  assert (H : forall gs, Forall (fun g : cell * list row => snd g <> []) gs ->
            Forall (fun g => snd g <> [])
              (fold_left (fun gs r => add_to_groups (key r) r gs) rs gs)).
  { induction rs as [|r rs IH]; intros gs Hgs; simpl; [assumption|].
    apply IH. now apply add_to_groups_nonempty. }
  apply H. constructor.
Qed.

(** X6 -- No brand group of the output is empty: each has at least one
    product. *)
Theorem brand_groups_nonempty (df : DataFrame) (cfg : settings)
  (bs : list brand_group) :
  brands_sorted float_repr df cfg = Ok bs ->
  Forall (fun b => products b <> []) bs.
Proof.
  intros H. apply brands_sorted_inv in H.
  destruct H as (df' & r & gs & Hg & ->).
  apply grouped_inv in Hg. destruct Hg as (_ & _ & Hs).
  apply sorted_groups_inv in Hs. destruct Hs as [_ Hs].
  eapply Permutation_Forall; [symmetry; apply sort_brands_perm|].
  apply Forall_map. apply Forall_forall. intros g' Hg'.
  destruct (Forall2_right _ _ _ _ Hs Hg') as (g & Hg & _ & Hsort).
  apply sort_group_result in Hsort. destruct Hsort as (Hperm & _).
  pose proof (groupby_nonempty (cell_of (columns df') (brand r)) (data df')) as Hne.
  rewrite Forall_forall in Hne. specialize (Hne g Hg).
  simpl. unfold to_products. intros E. apply map_eq_nil in E.
  rewrite E in Hperm. apply Permutation_nil in Hperm. contradiction.
Qed.

Lemma group_key_eqb_refl (k : cell) : group_key_eqb k k = true.
Proof.
  destruct k; simpl; try reflexivity.
  - apply String.eqb_refl.
  - apply Qeq_bool_iff. reflexivity.
  - apply Qeq_bool_iff. reflexivity.
Qed.

Lemma add_to_groups_keys (key : row -> cell) (r : row)
  (gs : list (cell * list row)) (seen : list row) :
  Forall (fun g => (exists x, In x seen /\ fst g = key x)
                   /\ Forall (fun x => group_key_eqb (key x) (fst g) = true)
                        (snd g)) gs ->
  Forall (fun g => (exists x, In x (seen ++ [r]) /\ fst g = key x)
                   /\ Forall (fun x => group_key_eqb (key x) (fst g) = true)
                        (snd g))
    (add_to_groups (key r) r gs).
Proof.
  assert (Hnew : (exists x, In x (seen ++ [r]) /\ key r = key x)
                 /\ Forall (fun x => group_key_eqb (key x) (key r) = true) [r]).
  { split.
    - exists r. split; [apply in_or_app; right; now left | reflexivity].
    - repeat constructor. apply group_key_eqb_refl. }
  assert (Hold : forall g : cell * list row,
            (exists x, In x seen /\ fst g = key x) ->
            exists x, In x (seen ++ [r]) /\ fst g = key x).
  { intros g (x & Hx & E). exists x. split; [apply in_or_app; now left | assumption]. }
  induction 1 as [|[k' rs] gs [Hk Hrs] Hgs IH]; simpl.
  - constructor; [exact Hnew | constructor].
  - assert (Hall : Forall
              (fun g => (exists x, In x (seen ++ [r]) /\ fst g = key x)
                        /\ Forall (fun x => group_key_eqb (key x) (fst g) = true)
                             (snd g)) gs).
    { eapply Forall_impl; [|exact Hgs]. intros g [H1 H2]. split; auto. }
    destruct (group_key_eqb (key r) k') eqn:E.
    + constructor; [|assumption]. split; [now apply Hold|]. simpl in *.
      apply Forall_app. split; [assumption | repeat constructor; assumption].
    + destruct (group_key_leb (key r) k').
      * constructor; [exact Hnew|]. constructor; [|assumption].
        split; [now apply Hold | assumption].
      * constructor; [|assumption]. split; [now apply Hold | assumption].
Qed.

(** every group key is the key of a row, and the rows of a group have the
    key of the group *)
Lemma groupby_keys (key : row -> cell) (rs : list row) :
  Forall (fun g => (exists x, In x rs /\ fst g = key x)
                   /\ Forall (fun x => group_key_eqb (key x) (fst g) = true)
                        (snd g))
    (groupby key rs).
Proof.
  unfold groupby.
  assert (H : forall seen gs,
            Forall (fun g => (exists x, In x seen /\ fst g = key x)
                             /\ Forall (fun x => group_key_eqb (key x) (fst g) = true)
                                  (snd g)) gs ->
            Forall (fun g => (exists x, In x (seen ++ rs) /\ fst g = key x)
                             /\ Forall (fun x => group_key_eqb (key x) (fst g) = true)
                                  (snd g))
              (fold_left (fun gs r => add_to_groups (key r) r gs) rs gs)).
  { induction rs as [|r rs IH]; intros seen gs Hgs; simpl.
    - now rewrite app_nil_r.
    - replace (seen ++ r :: rs)%list with ((seen ++ [r]) ++ rs)%list
        by (rewrite <- app_assoc; reflexivity).
      apply IH. now apply add_to_groups_keys. }
  apply (H [] []). constructor.
Qed.

(** *** The Brand cell through lines 50-74 *)

Lemma discount_stage_other (cols : list string) (dc : string)
  (cells1 cells2 : list cell) (k : string) :
  mapM_label cols dc normalize_discount cells1 = Ok cells2 ->
  k <> "Discount" -> k <> dc ->
  lookup_label (rename_label dc "Discount" cols) cells2 k
  = lookup_label cols cells1 k.
Proof.
  intros Hm H1 H2. rewrite lookup_label_rename_other by assumption.
  destruct (mapM_label_lookup _ _ _ _ _ Hm) as [_ Hk]. specialize (Hk k).
  destruct (lookup_label cols cells1 k) as [x|]; [|assumption].
  destruct Hk as (y & -> & Hy).
  destruct (String.eqb_spec k dc); [contradiction | now subst].
Qed.

(** Unless the Brand column is also the Discount column, or is named
    Discount or Image, its cell in a row of the transformed frame is the
    stripped text of the Brand cell of the row it comes from. *)
Lemma brand_cell_stripped (df : DataFrame) (cfg : settings) (r : roles)
  (df' : DataFrame) (r3 : row) :
  Forall (fun x => List.length (snd x) = List.length (columns df)) (data df) ->
  In (brand r) (columns df) ->
  discount r <> Some (brand r) ->
  brand r <> "Discount" -> brand r <> "Image" ->
  transform float_repr df cfg r = Ok df' -> In r3 (data df') ->
  exists x, In x (data df) /\ fst x = fst r3
            /\ cell_of (columns df') (brand r) r3
               = stripped float_repr (cell_of (columns df) (brand r) x).
Proof.
  intros Hrect Hb Hdb Hbd Hbi Ht Hr3.
  destruct (transform_chain _ _ _ _ _ _ Ht Hr3)
    as (x & cols2 & cells2 & Hx & Hf & HB & HC).
  exists x. split; [assumption|]. split; [congruence|].
  assert (Hlen : List.length (snd x) = List.length (columns df))
    by (rewrite Forall_forall in Hrect; now apply Hrect).
  destruct (lookup_label_found _ _ _ Hb Hlen) as (c0 & Hc0).
  set (cells1 := map_label (columns df) (brand r) (stripped float_repr) (snd x)) in *.
  assert (H1 : lookup_label (columns df) cells1 (brand r)
               = Some (stripped float_repr c0)).
  { unfold cells1. now rewrite lookup_label_map_label, String.eqb_refl, Hc0. }
  assert (H2 : lookup_label cols2 cells2 (brand r) = Some (stripped float_repr c0)
               /\ List.length cells2 = List.length cols2).
  { destruct HB as [(-> & -> & _) | (dc & Hd & _ & _ & -> & Hm)].
    - split; [assumption|]. unfold cells1. now rewrite map_label_length.
    - split.
      + rewrite (discount_stage_other _ _ _ _ _ Hm); [assumption | assumption|].
        congruence.
      + destruct (mapM_label_lookup _ _ _ _ _ Hm) as [Hl _].
        unfold rename_label. rewrite length_map, Hl. unfold cells1.
        now rewrite map_label_length. }
  destruct H2 as [H2 Hlen2].
  assert (H3 : lookup_label (columns df') (snd r3) (brand r)
               = Some (stripped float_repr c0)).
  { destruct HC as [[-> ->] | (ac & v & _ & _ & [(_ & -> & ->) | (_ & -> & ->)])].
    - assumption.
    - rewrite lookup_label_map_label.
      destruct (String.eqb_spec (brand r) "Image"); [contradiction | assumption].
    - rewrite lookup_label_snoc by assumption. now rewrite H2. }
  unfold cell_of. now rewrite H3, Hc0.
Qed.


(** *** The names of the groups *)

Lemma key_lt_trans (a b c : cell) : key_lt a b -> key_lt b c -> key_lt a c.
Proof.
  destruct a as [s| | | | |], b as [t| | | | |], c as [u| | | | |];
    simpl; try tauto.
  intros [H1 N1] [H2 N2]. split.
  - now apply string_leb_trans with t.
  - intros ->. apply N1. now apply String.leb_antisym.
Qed.

Lemma add_to_groups_fst (k : cell) (r : row) (gs : list (cell * list row)) (k' : cell) :
  In k' (map fst (add_to_groups k r gs)) -> k' = k \/ In k' (map fst gs).
Proof.
  induction gs as [|[k0 rs] gs IH]; simpl.
  - intros [<-|[]]. now left.
  - destruct (group_key_eqb k k0).
    + simpl. tauto.
    + destruct (group_key_leb k k0); simpl.
      * intros [<-|H]; [now left | now right].
      * intros [<-|H]; [right; now left|].
        destruct (IH H); [now left | right; now right].
Qed.

Lemma add_to_groups_text_sorted (s : string) (r : row) (gs : list (cell * list row)) :
  Forall (fun k => is_str k = true) (map fst gs) ->
  StronglySorted key_lt (map fst gs) ->
  Forall (fun k => is_str k = true) (map fst (add_to_groups (Str s) r gs))
  /\ StronglySorted key_lt (map fst (add_to_groups (Str s) r gs)).
Proof.
  induction gs as [|[k0 rs] gs IH]; simpl; intros Ht Hs.
  - split; repeat constructor.
  - inversion Ht as [|? ? Hk0 Ht']; subst.
    inversion Hs as [|? ? Hs' Hlt]; subst.
    destruct k0 as [t| | | | |]; try discriminate. cbn [group_key_eqb group_key_leb].
    destruct (String.eqb_spec s t) as [E|E].
    + simpl. split; assumption.
    + destruct (String.leb s t) eqn:L.
      * simpl. split; [constructor; [reflexivity | assumption]|].
        constructor; [assumption|]. constructor; [simpl; now split|].
        eapply Forall_impl; [|exact Hlt]. intros c Hc.
        apply key_lt_trans with (Str t); [simpl; now split | assumption].
      * destruct (IH Ht' Hs') as [IH1 IH2]. simpl. split.
        -- constructor; assumption.
        -- constructor; [assumption|]. apply Forall_forall. intros c Hc.
           destruct (add_to_groups_fst _ _ _ _ Hc) as [->|Hc'].
           ++ simpl. split.
              ** destruct (String.leb_total s t) as [H|H]; [congruence | assumption].
              ** congruence.
           ++ rewrite Forall_forall in Hlt. now apply Hlt.
Qed.

(** text keys come out of [groupby] in strictly ascending order *)
Lemma groupby_text_sorted (key : row -> cell) (rs : list row) :
  (forall x, In x rs -> is_str (key x) = true) ->
  Forall (fun k => is_str k = true) (map fst (groupby key rs))
  /\ StronglySorted key_lt (map fst (groupby key rs)).
Proof.
  unfold groupby.
  assert (H : forall gs,
            (forall x, In x rs -> is_str (key x) = true) ->
            Forall (fun k => is_str k = true) (map fst gs)
            /\ StronglySorted key_lt (map fst gs) ->
            Forall (fun k => is_str k = true)
              (map fst (fold_left (fun gs r => add_to_groups (key r) r gs) rs gs))
            /\ StronglySorted key_lt
                 (map fst (fold_left (fun gs r => add_to_groups (key r) r gs) rs gs))).
  { induction rs as [|r rs IH]; intros gs Hk [H1 H2]; simpl.
    - now split.
    - apply IH; [intros x Hx; apply Hk; now right|].
      assert (Hr : is_str (key r) = true) by (apply Hk; now left).
      destruct (key r) as [s| | | | |]; try discriminate.
      now apply add_to_groups_text_sorted. }
  intros Hk. apply H; [assumption|]. split; constructor.
Qed.

Lemma sorted_text_names_NoDup (l : list cell) :
  Forall (fun k => is_str k = true) l -> StronglySorted key_lt l ->
  NoDup (map (group_name float_repr) l).
Proof.
  induction 2 as [|a l Hs IH Hlt]; simpl; [constructor|].
  inversion H as [|? ? Ha Hl]; subst.
  constructor; [|now apply IH].
  intros Hin. apply in_map_iff in Hin. destruct Hin as (b & Hb & Hin).
  rewrite Forall_forall in Hlt. specialize (Hlt b Hin).
  destruct a as [s| | | | |], b as [t| | | | |]; simpl in Hlt; try tauto.
  unfold group_name in Hb. simpl in Hb. destruct Hlt as [_ N]. congruence.
Qed.

Lemma sorted_groups_names (df' : DataFrame) (b label : string)
  (gs : list (option string * list row)) :
  sorted_groups float_repr df' b label = Ok gs ->
  map fst gs
  = map (group_name float_repr) (map fst (groupby (cell_of (columns df') b) (data df'))).
Proof.
  intros H. apply sorted_groups_inv in H. destruct H as [_ H].
  induction H as [|g g' l l' [Hn _] _ IH]; simpl; [reflexivity|].
  now rewrite Hn, IH.
Qed.


(** *** Ties in the order of the groups *)

Section Stability.

Context {A : Type} (leb : A -> A -> bool) (R : A -> A -> Prop).

Lemma insert_sorted_ties (x : A) (l : list A) :
  Forall (R x) l ->
  StronglySorted (fun a b => leb a b = true -> leb b a = true -> R a b) l ->
  StronglySorted (fun a b => leb a b = true -> leb b a = true -> R a b)
    (insert_sorted leb x l).
Proof.
  intros Hx Hs. induction Hs as [|y l Hs IH Hy]; simpl.
  - repeat constructor.
  - inversion Hx as [|? ? Hxy Hxl]; subst.
    destruct (leb x y) eqn:E.
    + constructor; [now constructor|].
      eapply Forall_impl; [|exact Hx]. auto.
    + constructor; [now apply IH|].
      apply Forall_forall. intros z Hz.
      apply (Permutation_in _ (insert_sorted_perm leb x l)) in Hz.
      destruct Hz as [<-|Hz].
      * intros _ H. congruence.
      * rewrite Forall_forall in Hy. now apply Hy.
Qed.

(** elements that the sort cannot tell apart stay in the order they had *)
Lemma stable_sort_ties (l : list A) :
  StronglySorted R l ->
  StronglySorted (fun a b => leb a b = true -> leb b a = true -> R a b)
    (stable_sort leb l).
Proof.
  induction 1 as [|x l Hs IH Hx]; simpl; [constructor|].
  apply insert_sorted_ties; [|exact IH].
  eapply Permutation_Forall; [|exact Hx].
  apply Permutation_sym, stable_sort_perm.
Qed.

End Stability.

Lemma StronglySorted_weaken {A : Type} (P Q : A -> A -> Prop) (l : list A) :
  (forall a b, P a b -> Q a b) -> StronglySorted P l -> StronglySorted Q l.
Proof.
  intros H. induction 1 as [|x l Hs IH Hx]; constructor; [assumption|].
  eapply Forall_impl; [|exact Hx]. auto.
Qed.

Lemma string_leb_refl (s : string) : String.leb s s = true.
Proof. destruct (String.leb_total s s); assumption. Qed.


(** *** The roles of the columns (lines 34-48) *)

Lemma find_first {A : Type} (f : A -> bool) (l : list A) (x : A) :
  find f l = Some x ->
  f x = true
  /\ exists l1 l2, l = (l1 ++ x :: l2)%list /\ forall y, In y l1 -> f y = false.
Proof.
  induction l as [|a l IH]; simpl; [discriminate|].
  destruct (f a) eqn:E.
  - intros [= ->]. split; [assumption|]. exists [], l. split; [reflexivity|].
    intros y [].
  - intros H. destruct (IH H) as (Hx & l1 & l2 & -> & Hl1).
    split; [assumption|]. exists (a :: l1), l2. split; [reflexivity|].
    intros y [<-|Hy]; auto.
Qed.

Lemma truthy_not_empty (s : string) : PyStr.truthy s = true <-> s <> "".
Proof. destruct s; simpl; split; congruence. Qed.

(** X10 -- When the roles of the columns are resolved, the Brand column is
    the header [find_col] found for it, and the product description column is
    the header [find_col] found for it or, when it found none, the first
    header other than the Brand column whose column has dtype [object]; both
    are headers of the table and not the empty string.  The article code and
    Discount columns, when there are any, are headers of the table. *)
Theorem resolved_roles_are_headers (df : DataFrame) (cfg : settings) (r : roles) :
  resolve_roles df cfg = Ok r ->
  let found := find_col (columns df) (product_desc_col cfg)
                 ["Product"; "Product name"; "Description"] in
  find_col (columns df) (brand_col cfg) [] = Some (brand r)
  /\ brand r <> ""
  /\ In (product_desc r) (columns df) /\ product_desc r <> ""
  /\ (forall p, found = Some p -> p <> "" -> product_desc r = p)
  /\ (found = None ->
      product_desc r <> brand r
      /\ dtype_is_object (column df (product_desc r)) = true
      /\ exists l1 l2,
           columns df = (l1 ++ product_desc r :: l2)%list
           /\ forall c, In c l1 ->
                        c = brand r \/ dtype_is_object (column df c) = false)
  /\ article_code r
     = find_col (columns df) (article_code_col cfg) ["Article code"; "Code"; "SKU"]
  /\ discount r
     = find_col (columns df) (discount_col cfg)
         ["Discount%"; "Discount"; "DISCOUNT %"; "discount %"]
  /\ (forall c, article_code r = Some c \/ discount r = Some c ->
                In c (columns df)).
Proof.
  intros H found.
  destruct (resolve_roles_inv _ _ _ H) as (_ & Hd & Ha).
  unfold resolve_roles in H. fold found in H.
  destruct (find_col (columns df) (brand_col cfg) []) as [b|] eqn:Eb;
    [|discriminate].
  destruct (PyStr.truthy b) eqn:Tb; [|discriminate]. simpl in H.
  assert (Hinfer : forall c, infer_product_desc df b = Some c ->
            In c (columns df) /\ c <> b
            /\ dtype_is_object (column df c) = true
            /\ exists l1 l2,
                 columns df = (l1 ++ c :: l2)%list
                 /\ forall y, In y l1 ->
                              y = b \/ dtype_is_object (column df y) = false).
  { intros c Hc. unfold infer_product_desc in Hc.
    destruct (find_first _ _ _ Hc) as (Hf & l1 & l2 & E & Hl1).
    apply andb_true_iff in Hf. destruct Hf as [Hne Ho].
    split; [rewrite E; apply in_or_app; right; now left|].
    split.
    { intros ->. rewrite String.eqb_refl in Hne. discriminate. }
    split; [assumption|]. exists l1, l2. split; [assumption|].
    intros y Hy. specialize (Hl1 y Hy). apply andb_false_iff in Hl1.
    destruct Hl1 as [K|K]; [left | now right].
    apply negb_false_iff in K. now apply String.eqb_eq in K. }
  destruct found as [p|] eqn:Ep.
  - simpl in H. destruct (PyStr.truthy p) eqn:Tp.
    + rewrite Tp in H. simpl in H. injection H as <-. simpl.
      split; [reflexivity|]. split; [now apply truthy_not_empty|].
      split; [subst found; eapply find_col_In; exact Ep|].
      split; [now apply truthy_not_empty|].
      split; [intros q [= ->] _; reflexivity|].
      split; [discriminate|].
      split; [reflexivity|]. split; [reflexivity|].
      intros c [Hc|Hc]; [now apply Ha | now apply Hd].
    + destruct (infer_product_desc df b) as [c|] eqn:Ei.
      * destruct (PyStr.truthy c) eqn:Tc; [|discriminate]. simpl in H.
        injection H as <-. simpl.
        destruct (Hinfer c eq_refl) as (Hin & _).
        split; [reflexivity|]. split; [now apply truthy_not_empty|].
        split; [assumption|]. split; [now apply truthy_not_empty|].
        split.
        { intros q [= ->] Hq. apply truthy_not_empty in Hq. congruence. }
        split; [discriminate|].
        split; [reflexivity|]. split; [reflexivity|].
        intros c' [Hc|Hc]; [now apply Ha | now apply Hd].
      * rewrite Tp in H. discriminate.
  - simpl in H. destruct (infer_product_desc df b) as [c|] eqn:Ei; [|discriminate].
    destruct (PyStr.truthy c) eqn:Tc; [|discriminate]. simpl in H.
    injection H as <-. simpl.
    destruct (Hinfer c eq_refl) as (Hin & Hne & Ho & Hfirst).
    split; [reflexivity|]. split; [now apply truthy_not_empty|].
    split; [assumption|]. split; [now apply truthy_not_empty|].
    split; [discriminate|].
    split; [intros _; auto|].
    split; [reflexivity|]. split; [reflexivity|].
    intros c' [Hc|Hc]; [now apply Ha | now apply Hd].
Qed.

(** *** A table without rows *)

Lemma sort_brands_nil (bs : list brand_group) : sort_brands bs = [] -> bs = [].
Proof.
  intros H. pose proof (Permutation_length (sort_brands_perm bs)) as L.
  rewrite H in L. destruct bs; [reflexivity | discriminate].
Qed.

(** X11 -- The list of brands is empty exactly when the table has no rows,
    and the file then written is the document with an empty list of brands. *)
Theorem no_rows_no_brands (df : DataFrame) (cfg : settings)
  (bs : list brand_group) :
  brands_sorted float_repr df cfg = Ok bs ->
  (bs = [] <-> data df = [])
  /\ (data df = [] ->
      convert_excel_to_json float_repr df cfg
      = {| raised := None; written := Some empty_document |}).
Proof.
  intros Hbs.
  assert (Hiff : bs = [] <-> data df = []).
  { destruct (brands_sorted_inv _ _ _ _ Hbs) as (df' & r & gs & Hg & E).
    apply grouped_inv in Hg. destruct Hg as (_ & Ht & Hs).
    pose proof (sorted_groups_partition _ _ _ _ _ Hs) as Hperm.
    pose proof (f_equal (@List.length nat) (transform_labels _ _ _ _ _ Ht)) as HL.
    rewrite !length_map in HL.
    apply sorted_groups_inv in Hs. destruct Hs as [_ Hs].
    split.
    - intros ->. symmetry in E. apply sort_brands_nil in E.
      destruct gs; [|discriminate]. simpl in Hperm.
      apply Permutation_length in Hperm. simpl in Hperm.
      destruct (data df); [reflexivity|]. unfold row in *. simpl in HL.
      congruence.
    - intros Hd. rewrite Hd in HL. simpl in HL.
      destruct (data df') eqn:Ed; [|discriminate].
      unfold groupby in Hs. simpl in Hs.
      inversion Hs; subst. reflexivity. }
  split; [exact Hiff|].
  intros Hd. apply Hiff in Hd. subst bs.
  unfold convert_excel_to_json. rewrite Hbs. reflexivity.
Qed.

(** *** A Discount cell that reads as infinity (line 57) *)

Lemma mapM_raise {A B : Type} (f : A -> result B) (l : list A) (e : exn) :
  mapM f l = Raise e -> exists a, In a l /\ f a = Raise e.
Proof.
  induction l as [|a l IH]; simpl; [discriminate|].
  destruct (f a) as [b|e'] eqn:E; simpl.
  - destruct (mapM f l) as [bs|e'']; simpl; [discriminate|].
    intros [= ->]. destruct (IH eq_refl) as (a' & Ha & Hf). exists a'. auto.
  - intros [= ->]. exists a. auto.
Qed.

Lemma mapM_label_raise (cols : list string) (l : string)
  (f : cell -> result cell) (cells : list cell) (e : exn) :
  mapM_label cols l f cells = Raise e -> exists c, f c = Raise e.
Proof.
  revert cells. induction cols as [|c cols IH]; intros [|x cells]; simpl;
    try discriminate.
  destruct (String.eqb c l).
  - destruct (f x) as [y|e'] eqn:E; simpl.
    + destruct (mapM_label cols l f cells) as [ys|e''] eqn:E'; simpl;
        [discriminate|].
      intros [= ->]. now apply (IH cells).
    + intros [= ->]. now exists x.
  - simpl. destruct (mapM_label cols l f cells) as [ys|e''] eqn:E'; simpl;
      [discriminate|].
    intros [= ->]. now apply (IH cells).
Qed.

Lemma Forall2_left {A B : Type} (R : A -> B -> Prop) (l : list A) (l' : list B)
  (a : A) :
  Forall2 R l l' -> In a l -> exists b, In b l' /\ R a b.
Proof.
  induction 1 as [|x y l l' Hxy _ IH]; simpl; intros Ha.
  - contradiction.
  - destruct Ha as [<-|Ha].
    + exists y. auto.
    + destruct (IH Ha) as (b & Hb & Hr). exists b. auto.
Qed.

(** the cast is the only step of lines 53-59 that can raise *)
Lemma normalize_discount_exn (c : cell) (e : exn) :
  normalize_discount c = Raise e -> e = cast_error.
Proof.
  unfold normalize_discount.
  destruct (Numeric.to_numeric c) as [q| |]; simpl.
  - destruct (Qeq_bool _ _ && _); simpl; [discriminate|]. now intros [= <-].
  - now intros [= <-].
  - discriminate.
Qed.


End FurtherFacts.

(** * The further properties on sample tables *)




(** The records of the catalogue. *)
Lemma record_fields_sound_witness :
  Forall (fun b =>
            Forall (fun p =>
                      NoDup (map fst p)
                      /\ dict_get "Brand" p = None
                      /\ forall k, In k (map fst p) ->
                                   In k (columns catalogue) \/ k = "Discount"
                                   \/ k = "Image")
              (products b)) catalogue_brands.
Proof.
  apply (record_fields_sound no_floats catalogue default_settings
           catalogue_roles catalogue_brands); reflexivity.
Defined.

(** Both groups of the catalogue have products. *)
Lemma brand_groups_nonempty_witness :
  Forall (fun b => products b <> []) catalogue_brands.
Proof.
  apply (brand_groups_nonempty no_floats catalogue default_settings).
  reflexivity.
Defined.



Lemma well_formed_case_variants : well_formed sheet_case_variants.
Proof.
  split; [|split].
  - repeat constructor; simpl; intuition discriminate.
  - simpl. intuition discriminate.
  - repeat constructor.
Defined.


(** No header is a known name of the product description; [Item] is the
    first text column after the Brand column and the numeric [Price]. *)
Lemma resolved_roles_witness :
  let df := sheet_unnamed_products in
  let cfg := default_settings in
  let r := inferred_roles in
  let found := find_col (columns df) (product_desc_col cfg)
                 ["Product"; "Product name"; "Description"] in
  find_col (columns df) (brand_col cfg) [] = Some (brand r)
  /\ brand r <> ""
  /\ In (product_desc r) (columns df) /\ product_desc r <> ""
  /\ (forall p, found = Some p -> p <> "" -> product_desc r = p)
  /\ (found = None ->
      product_desc r <> brand r
      /\ dtype_is_object (column df (product_desc r)) = true
      /\ exists l1 l2,
           columns df = (l1 ++ product_desc r :: l2)%list
           /\ forall c, In c l1 ->
                        c = brand r \/ dtype_is_object (column df c) = false)
  /\ article_code r
     = find_col (columns df) (article_code_col cfg) ["Article code"; "Code"; "SKU"]
  /\ discount r
     = find_col (columns df) (discount_col cfg)
         ["Discount%"; "Discount"; "DISCOUNT %"; "discount %"]
  /\ (forall c, article_code r = Some c \/ discount r = Some c ->
                In c (columns df)).
Proof.
  exact (resolved_roles_are_headers sheet_unnamed_products default_settings
           inferred_roles eq_refl).
Defined.

(** A table with headers and no rows. *)
Lemma no_rows_no_brands_witness :
  ((@nil brand_group) = [] <-> data sheet_no_rows = [])
  /\ (data sheet_no_rows = [] ->
      convert_excel_to_json no_floats sheet_no_rows default_settings
      = {| raised := None; written := Some empty_document |}).
Proof.
  apply (no_rows_no_brands no_floats sheet_no_rows default_settings []).
  reflexivity.
Defined.

